(** * studyingForDummies: the quiz front ends, embedded and verified

    The repository is a browser quiz application.  Its JavaScript sources
    contain the content renderer ([parseQuestionContent]), the results
    screens of the legacy static page ([showResults], [saveQuizToHistory])
    and of the React application ([ResultsScreen], [fetchResults]), and the
    quiz screen ([handleAnswer]).  The question-bank parser and the quiz
    session engine run on the server and are not part of these sources; they
    are modelled from the specification, in clearly marked modules.

    Part I holds the definitions, Part II the theorems. *)

From Stdlib Require Import ZArith QArith Qround List Ascii String Lia Lqa Bool.
From Stdlib Require DecimalString.
From stdpp Require Import gmap strings list.

Close Scope Q_scope.
Local Open Scope nat_scope.

(* ===================================================================== *)
(** * Part I: definitions *)
(* ===================================================================== *)

(** ** JavaScript values *)

(** A JavaScript string is a sequence of UTF-16 code units. *)
Definition code_unit : Type := N.
Definition js_string : Type := list code_unit.

(** ASCII literals of the sources, as code units. *)
Definition js (s : string) : js_string :=
  map (fun a : ascii => N_of_ascii a) (list_ascii_of_string s).

(** A JavaScript number is a double: NaN, an infinity, or a finite value,
    which is a rational (negative zero is [Finite 0]: no operation used in
    the sources tells the two zeros apart). *)
Inductive js_number : Type :=
| NaN
| PosInfinity
| NegInfinity
| Finite (q : Q).

Inductive js_value : Type :=
| VUndefined
| VNull
| VBool (b : bool)
| VNumber (n : js_number)
| VString (s : js_string).

(** ToBoolean: [undefined], [null], [false], [0], [NaN] and the empty string
    are falsy; every other value is truthy. *)
Definition ToBoolean (v : js_value) : bool :=
  match v with
  | VUndefined | VNull => false
  | VBool b => b
  | VNumber NaN => false
  | VNumber (Finite q) => negb (Qeq_bool q 0)
  | VNumber _ => true
  | VString s => match s with [] => false | _ :: _ => true end
  end.

(** [x >= k] for a number [x] and an integer literal [k]: false when [x] is
    NaN. *)
Definition js_ge (x : js_number) (k : Z) : bool :=
  match x with
  | NaN => false
  | PosInfinity => true
  | NegInfinity => false
  | Finite q => Qle_bool (inject_Z k) q
  end.

Inductive js_error : Type :=
| TypeError
| JsError (message : js_string).   (* throw new Error(message) *)

(** A call either returns a value or throws. *)
Inductive completion (A : Type) : Type :=
| Returns (a : A)
| Throws (e : js_error).
Arguments Returns {A} a.
Arguments Throws {A} e.

(** ** String built-ins used by the sources *)

Module JsString.

(** WhiteSpace and LineTerminator code points, the ones
    [String.prototype.trim] strips: TAB, LF, VT, FF, CR, SP, NBSP,
    U+1680, U+2000..U+200A, U+2028, U+2029, U+202F, U+205F, U+3000 and
    U+FEFF.  All of them are single code units. *)
Definition is_white_space (c : code_unit) : bool :=
  ((9 <=? c) && (c <=? 13) || (c =? 32) || (c =? 160) || (c =? 5760)
   || (8192 <=? c) && (c <=? 8202) || (c =? 8232) || (c =? 8233)
   || (c =? 8239) || (c =? 8287) || (c =? 12288) || (c =? 65279))%N.

Fixpoint trimStart (s : js_string) : js_string :=
  match s with
  | [] => []
  | c :: rest => if is_white_space c then trimStart rest else s
  end.

Definition trimEnd (s : js_string) : js_string :=
  rev (trimStart (rev s)).

(** [s.trim()] *)
Definition trim (s : js_string) : js_string := trimEnd (trimStart s).

(** A text is trimmed when it neither starts nor ends with white space. *)
Definition trimmed (s : js_string) : Prop :=
  (forall c t, s = c :: t -> is_white_space c = false) /\
  (forall t c, s = t ++ [c] -> is_white_space c = false).

(** Does [s] start with [m]? *)
Fixpoint starts_with (m s : js_string) : bool :=
  match m, s with
  | [], _ => true
  | _ :: _, [] => false
  | a :: m', b :: s' => (a =? b)%N && starts_with m' s'
  end.

(** [s.split(/m/g)] for a regular expression that is the literal,
    non-empty text [m].  The built-in scans the text from left to right
    with a position [q] and the start [p] of the current fragment; where
    the pattern matches at [q] it emits the fragment [p..q) and jumps
    behind the match, elsewhere it moves on by one code unit; the rest of
    the text is the last fragment.  Here the scan is a recursion on the
    remaining text: [cur] is the current fragment (reversed) and [skip]
    counts the code units of the match still to jump over. *)
Fixpoint split_scan (m : js_string) (skip : nat) (cur : js_string)
         (s : js_string) : list js_string :=
  match s with
  | [] => [rev cur]
  | c :: rest =>
      match skip with
      | S k => split_scan m k cur rest
      | O =>
          if starts_with m s
          then rev cur :: split_scan m (length m - 1) [] rest
          else split_scan m 0 (c :: cur) rest
      end
  end.

Definition split (m : js_string) (s : js_string) : list js_string :=
  split_scan m 0 [] s.

(** The number of matches of [/m/g] in the text, as [s.match(/m/g)]
    finds them: leftmost first, each search resuming behind the previous
    match. *)
Fixpoint match_scan (m : js_string) (skip : nat) (s : js_string) : nat :=
  match s with
  | [] => 0
  | c :: rest =>
      match skip with
      | S k => match_scan m k rest
      | O =>
          if starts_with m s
          then S (match_scan m (length m - 1) rest)
          else match_scan m 0 rest
      end
  end.

Definition match_count (m : js_string) (s : js_string) : nat :=
  match_scan m 0 s.

(** [parts.join(m)] *)
Fixpoint join (m : js_string) (parts : list js_string) : js_string :=
  match parts with
  | [] => []
  | [p] => p
  | p :: rest => p ++ m ++ join m rest
  end.

(** [m] occurs in [s] as a substring. *)
Fixpoint includes (m s : js_string) : bool :=
  starts_with m s ||
  match s with
  | [] => false
  | _ :: rest => includes m rest
  end.

End JsString.

(** ** The content renderer (frontend/src/utils/textParser) *)

Module Renderer.

Definition quote : code_unit := 34%N.

(** The marker of the regular expression of [parseQuestionContent]:
    three double quotes, CODE, three double quotes. *)
Definition CODE : js_string :=
  [quote; quote; quote] ++ js "CODE" ++ [quote; quote; quote].

(** What the callback of [parts.map] returns for one part:
    - [CodeBlock k c] is <pre key=k className=code-block><code>c</code></pre>;
    - [ProseDiv k c] is <div key=k className=whitespace-pre-wrap>c</div>;
    - [EmptyText] is the empty string that [part.trim() && ...] evaluates
      to when the trimmed part is empty; React renders nothing for it. *)
Inductive child : Type :=
| CodeBlock (key : nat) (content : js_string)
| ProseDiv (key : nat) (content : js_string)
| EmptyText.

(** The value of [parseQuestionContent]: [null], or the container
    <div className=space-y-4> with its children. *)
Inductive rendered : Type :=
| RNull
| RContainer (children : list child).

(** The callback [(part, index) => ...]. *)
Definition render_part (index : nat) (part : js_string) : child :=
  if Nat.odd index
  then CodeBlock index (JsString.trim part)
  else match JsString.trim part with
       | [] => EmptyText
       | _ :: _ => ProseDiv index (JsString.trim part)
       end.

Definition parseQuestionContent (text : js_value) : completion rendered :=
  if negb (ToBoolean text) then Returns RNull
  else match text with
       | VString s =>
           let parts := JsString.split CODE s in
           Returns (RContainer (imap render_part parts))
       | _ => Throws TypeError  (* [text.split] is not a function *)
       end.

(** The segments a reader sees, in order. *)
Inductive kind : Type := prose | code.

Record segment : Type := Segment {
  seg_kind : kind;
  seg_content : js_string
}.

Definition child_segments (c : child) : list segment :=
  match c with
  | CodeBlock _ content => [Segment code content]
  | ProseDiv _ content => [Segment prose content]
  | EmptyText => []
  end.

Definition rendered_segments (r : completion rendered) : list segment :=
  match r with
  | Returns (RContainer children) => flat_map child_segments children
  | Returns RNull | Throws _ => []
  end.

(** [segment(text)] of the specification, computed by the renderer. *)
Definition segments (text : js_string) : list segment :=
  rendered_segments (parseQuestionContent (VString text)).

(** Sample texts: the one of the specification (section 8), one with a
    code block that holds a single space, and one whose code block is
    never closed. *)
Definition parity_text : js_string :=
  js "intro " ++ CODE ++ js " x=1 " ++ CODE ++ js " outro".

Definition empty_code_text : js_string :=
  js "a" ++ CODE ++ js " " ++ CODE ++ js "b".

Definition unclosed_text : js_string := js "a " ++ CODE ++ js " b".

End Renderer.

(** ** Results screens: the performance message *)

Module Results.

(** The payload of GET /api/results as the screens read it.  It is parsed
    from JSON, so its numbers are finite. *)
Record results_payload : Type := Payload {
  score : Q;
  total : Q;
  percentage : Q
}.

Definition excellent : js_string :=
  js "Excellent work! " ++ [0xD83C; 0xDF1F]%N.          (* U+1F31F *)
Definition good_job : js_string :=
  js "Good job! " ++ [0xD83D; 0xDC4D]%N.                (* U+1F44D *)
Definition not_bad : js_string :=
  js "Not bad! Keep practicing. " ++ [0xD83D; 0xDCDA]%N. (* U+1F4DA *)
Definition keep_studying : js_string :=
  js "Keep studying! You'll do better next time. " ++ [0xD83D; 0xDCAA]%N.
                                                         (* U+1F4AA *)

(** static/script.js, [showResults]: the text put into #messageText, as a
    function of the value of [data.percentage]. *)
Definition showResults_message (data_percentage : js_number) : js_string :=
  if js_ge data_percentage 90 then excellent
  else if js_ge data_percentage 70 then good_job
  else if js_ge data_percentage 50 then not_bad
  else keep_studying.

(** ResultsScreen.jsx: the pair [message], [colorClass], as a function of
    the value of [results.percentage]. *)
Definition ResultsScreen_message (results_percentage : js_number)
  : js_string * js_string :=
  if js_ge results_percentage 90 then (excellent, js "text-yellow-500")
  else if js_ge results_percentage 70 then (good_job, js "text-green-500")
  else if js_ge results_percentage 50 then (not_bad, js "text-blue-500")
  else (keep_studying, js "text-gray-500").

(** The results of the scenario of the specification, section 8: one
    answer of two is right. *)
Definition one_of_two : results_payload := Payload 1 2 50.

End Results.

(** ** The clock and [Date.prototype.toISOString] *)

Module JsDate.

(** A time value: milliseconds since 1970-01-01T00:00:00Z. *)
Definition time_value : Type := Z.

Local Open Scope Z_scope.

Definition msPerDay : Z := 86400000.

Record date_fields : Type := Fields {
  year : Z; month : Z; day : Z;
  hours : Z; minutes : Z; seconds : Z; milliseconds : Z
}.

(** Days are counted in 400-year eras that start on 1 March.  The first
    day of year [yoe] of an era, as a day of the era. *)
Definition year_start (yoe : Z) : Z := 365 * yoe + yoe / 4 - yoe / 100.

(** The year of the era that day [doe] of the era lies in. *)
Definition year_of_era (doe : Z) : Z :=
  (doe - doe / 1460 + doe / 36524 - doe / 146096) / 365.

(** The month (counted from March as 0) that day [doy] of a year of the
    era lies in, and the first day of such a month. *)
Definition march_month (doy : Z) : Z := (5 * doy + 2) / 153.
Definition month_start (mp : Z) : Z := (153 * mp + 2) / 5.

(** The date of day [doe] of an era: the year within the era (a January
    or February belongs to the next year), the month and the day of the
    month. *)
Definition era_date (doe : Z) : Z * Z * Z :=
  let yoe := year_of_era doe in
  let doy := doe - year_start yoe in
  let mp := march_month doy in
  let d := doy - month_start mp + 1 in
  let m := if mp <? 10 then mp + 3 else mp - 9 in
  (yoe + (if m <=? 2 then 1 else 0), m, d).

(** The proleptic Gregorian date of day number [days] (days since the
    epoch). *)
Definition civil_from_days (days : Z) : Z * Z * Z :=
  let z := days + 719468 in
  let era := z / 146097 in
  let '(y, m, d) := era_date (z mod 146097) in
  (y + era * 400, m, d).

(** The day number of a date: the inverse direction. *)
Definition days_from_civil (y m d : Z) : Z :=
  let y' := y - (if m <=? 2 then 1 else 0) in
  let era := y' / 400 in
  let yoe := y' mod 400 in
  let mp := if 2 <? m then m - 3 else m + 9 in
  let doy := (153 * mp + 2) / 5 + d - 1 in
  let doe := yoe * 365 + yoe / 4 - yoe / 100 + doy in
  era * 146097 + doe - 719468.

Definition fields_of (t : time_value) : date_fields :=
  let '(y, m, d) := civil_from_days (t / msPerDay) in
  let ms := t mod msPerDay in
  Fields y m d (ms / 3600000) (ms / 60000 mod 60) (ms / 1000 mod 60)
         (ms mod 1000).

(** The instant that a record of fields denotes. *)
Definition time_of (f : date_fields) : time_value :=
  days_from_civil (year f) (month f) (day f) * msPerDay
  + hours f * 3600000 + minutes f * 60000 + seconds f * 1000
  + milliseconds f.

Definition digit (n : Z) : code_unit := (48 + Z.to_N (n mod 10))%N.

Definition pad2 (n : Z) : js_string := [digit (n / 10); digit n].
Definition pad3 (n : Z) : js_string :=
  [digit (n / 100); digit (n / 10); digit n].
Definition pad4 (n : Z) : js_string :=
  [digit (n / 1000); digit (n / 100); digit (n / 10); digit n].
Definition pad6 (n : Z) : js_string :=
  [digit (n / 100000); digit (n / 10000); digit (n / 1000);
   digit (n / 100); digit (n / 10); digit n].

(** Years 0 to 9999 print with four digits, the others with a sign and
    six digits. *)
Definition format_year (y : Z) : js_string :=
  if (0 <=? y) && (y <=? 9999) then pad4 y
  else if y <? 0 then js "-" ++ pad6 (- y)
  else js "+" ++ pad6 y.

Definition format_fields (f : date_fields) : js_string :=
  format_year (year f) ++ js "-" ++ pad2 (month f) ++ js "-" ++ pad2 (day f)
  ++ js "T" ++ pad2 (hours f) ++ js ":" ++ pad2 (minutes f) ++ js ":"
  ++ pad2 (seconds f) ++ js "." ++ pad3 (milliseconds f) ++ js "Z".

(** [new Date(t).toISOString()], for a time value in the range of Date
    (at most 8.64e15 milliseconds from the epoch). *)
Definition toISOString (t : time_value) : js_string :=
  format_fields (fields_of t).

(** The fields are those of a calendar date and a time of day. *)
Definition valid_fields (f : date_fields) : Prop :=
  1 <= month f <= 12 /\ 1 <= day f <= 31 /\ 0 <= hours f <= 23 /\
  0 <= minutes f <= 59 /\ 0 <= seconds f <= 59 /\
  0 <= milliseconds f <= 999.

(** The date of the fields exists in the calendar: it is the date of its
    own day number (so there is no 30 February). *)
Definition calendar_date (f : date_fields) : Prop :=
  civil_from_days (days_from_civil (year f) (month f) (day f))
  = (year f, month f, day f).

(** [s] is the ISO-8601 text YYYY-MM-DDTHH:mm:ss.sssZ of the instant
    [t]: its fields are a date and a time of day in UTC, with a year of
    four digits, and they denote [t]. *)
Definition iso8601_of (s : js_string) (t : time_value) : Prop :=
  exists f : date_fields,
    0 <= year f <= 9999 /\ valid_fields f /\ calendar_date f /\
    time_of f = t /\
    s = pad4 (year f) ++ js "-" ++ pad2 (month f) ++ js "-"
        ++ pad2 (day f) ++ js "T" ++ pad2 (hours f) ++ js ":"
        ++ pad2 (minutes f) ++ js ":" ++ pad2 (seconds f) ++ js "."
        ++ pad3 (milliseconds f) ++ js "Z".

(** The value of a text of decimal digits. *)
Definition decimal_value (s : js_string) : Z :=
  fold_left (fun acc c => 10 * acc + (Z.of_N c - 48)) s 0.

(** The instants whose year has four digits: from 0000-01-01T00:00:00.000Z
    to 9999-12-31T23:59:59.999Z. *)
Definition four_digit_year (t : time_value) : Prop :=
  -62167219200000 <= t <= 253402300799999.

(** The checks that the proofs run over the 400 years of an era and over
    the 366 days of a year: a year starts and ends with days that
    [year_of_era] maps to it; a day of the year lies in one of the twelve
    months, on one of its at most 31 days, and January starts on day 306. *)
Definition year_ok (yoe : Z) : bool :=
  (year_of_era (year_start yoe) =? yoe)
  && (year_of_era (year_start (yoe + 1) - 1) =? yoe).

Definition day_of_year_ok (doy : Z) : bool :=
  let mp := march_month doy in
  let d := doy - month_start mp + 1 in
  (0 <=? mp) && (mp <=? 11) && (1 <=? d) && (d <=? 31)
  && (if doy <? 306 then mp <? 10 else 10 <=? mp).

(** A sample instant: 2023-11-14T22:13:20.000Z. *)
Definition sample_now : time_value := 1700000000000.

Fixpoint all_from (ok : Z -> bool) (n : nat) (z : Z) : bool :=
  match n with
  | O => true
  | S n' => ok z && all_from ok n' (z + 1)
  end.

End JsDate.

(** ** The history log in localStorage *)

Module History.

Import Results.

(** An entry is a plain object; its values are strings and finite
    numbers. *)
Abbreviation entry := (gmap string js_value).

(** The value under the key quizHistory: absent ([getItem] returns
    [null]) or the JSON text of an array of entries.  Only the functions
    below write the key, and for entries made of strings and finite
    numbers [JSON.parse] gives back what [JSON.stringify] was given, so
    the text is represented by the array it holds. *)
Definition local_storage : Type := option (list entry).

(** [JSON.parse(localStorage.getItem('quizHistory') || '[]')] *)
Definition read_history (ls : local_storage) : list entry :=
  match ls with
  | Some h => h
  | None => []
  end.

(** [x.toString()] of an integer. *)
Definition Z_to_js (z : Z) : js_string :=
  js (DecimalString.NilZero.string_of_int (Z.to_int z)).

(** [Math.round(x / 1000)] of an integer [x]: the nearest integer, a
    half rounding up. *)
Definition round_div_1000 (x : Z) : Z := ((x + 500) / 1000)%Z.

(** static/script.js, [saveQuizToHistory]: the object [entry].
    [quizStartTime] is the module variable ([null] or the time of the
    start); [now_elapsed] is the value of [Date.now()] and [now_date] that
    of [new Date()]. *)
Definition saveQuizToHistory_entry (quizStartTime : option Z)
           (now_elapsed now_date : JsDate.time_value)
           (data : results_payload) : entry :=
  let quizTime :=
    match quizStartTime with
    | Some t => if (t =? 0)%Z then 0%Z else round_div_1000 (now_elapsed - t)
    | None => 0%Z
    end in
  let minutes := (quizTime / 60)%Z in
  let seconds := Z.rem quizTime 60 in
  {[ "date" := VString (JsDate.toISOString now_date);
     "score" := VNumber (Finite (score data));
     "total" := VNumber (Finite (total data));
     "percentage" := VNumber (Finite (percentage data));
     "duration" := VString (Z_to_js minutes ++ js "m " ++
                            Z_to_js seconds ++ js "s") ]}.

(** static/script.js, [saveQuizToHistory]. *)
Definition saveQuizToHistory (quizStartTime : option Z)
           (now_elapsed now_date : JsDate.time_value)
           (data : results_payload) (ls : local_storage) : local_storage :=
  let history := read_history ls in
  let entry := saveQuizToHistory_entry quizStartTime now_elapsed now_date data in
  let history := entry :: history in           (* history.unshift(entry) *)
  let history :=
    if 20 <? length history then removelast history (* history.pop() *)
    else history in
  Some history.

(** ResultsScreen.jsx, [fetchResults]: the object [entry]. *)
Definition fetchResults_entry (now_date : JsDate.time_value)
           (data : results_payload) : entry :=
  {[ "date" := VString (JsDate.toISOString now_date);
     "score" := VNumber (Finite (score data));
     "total" := VNumber (Finite (total data));
     "percentage" := VNumber (Finite (percentage data));
     "duration" := VString (js "N/A") ]}.

(** ResultsScreen.jsx, [fetchResults], after [setResults(data)]. *)
Definition fetchResults (now_date : JsDate.time_value)
           (data : results_payload) (ls : local_storage) : local_storage :=
  let history := read_history ls in
  let entry := fetchResults_entry now_date data in
  let history := entry :: history in
  let history :=
    if 20 <? length history then removelast history else history in
  Some history.

(** [clearHistory], once confirmed: [localStorage.removeItem]. *)
Definition clearHistory (ls : local_storage) : local_storage := None.

(** What can happen to the log. *)
Inductive event : Type :=
| LegacySave (quizStartTime : option Z) (now_elapsed now_date : Z)
             (data : results_payload)
| ReactSave (now_date : Z) (data : results_payload)
| Clear.

Definition step (ls : local_storage) (ev : event) : local_storage :=
  match ev with
  | LegacySave start now1 now2 data =>
      saveQuizToHistory start now1 now2 data ls
  | ReactSave now data => fetchResults now data ls
  | Clear => clearHistory ls
  end.

(** The log after a run of events on a browser that had no log. *)
Definition run (evs : list event) : local_storage :=
  fold_left step evs None.

(** The entry that an event writes. *)
Definition entry_of (ev : event) : option entry :=
  match ev with
  | LegacySave start now1 now2 data =>
      Some (saveQuizToHistory_entry start now1 now2 data)
  | ReactSave now data => Some (fetchResults_entry now data)
  | Clear => None
  end.

(** The field names of a history entry. *)
Definition entry_fields : gset string :=
  {[ "date"; "score"; "total"; "percentage"; "duration" ]}.

End History.

(** ** The quiz screen (QuizScreen.jsx) *)

Module QuizScreen.

(** The reply of GET /api/question, as the screen uses it. *)
Record question_data : Type := QuestionData {
  question : js_value;
  choices : list (js_string * js_string);
  current : Z;
  total : Z;
  score : Z
}.

(** The reply of POST /api/answer. *)
Record answer_data : Type := AnswerData {
  correct : bool;
  correct_answer : js_string;
  has_more : bool
}.

(** The state of the component ([useState]). *)
Record screen_state : Type := ScreenState {
  questionData : option question_data;
  selectedAnswer : option js_string;
  result : option answer_data;
  loading : bool
}.

(** What a handler does besides updating the state. *)
Inductive effect : Type :=
| CheckAnswerRequest (answer : js_string)   (* api.checkAnswer(answer) *)
| ScheduleAdvance (has_more : bool)         (* setTimeout(..., 1500) *)
| ConsoleError.                             (* console.error(err) *)

(** How the promise of an async handler stands when the handler gives up
    control: it is fulfilled, it is rejected, or the handler waits for a
    request to settle. *)
Inductive handler_status : Type :=
| Fulfilled
| Rejected (e : js_error)
| Awaiting.

(** [handleAnswer(answer)], from its call to its [await].  The guard reads
    the state [result] as it is at the call: [setResult] runs only when the
    request has settled, so a call that comes while an earlier request is
    still in flight finds no result. *)
Definition handleAnswer (answer : js_string) (st : screen_state)
  : screen_state * list effect * handler_status :=
  match result st with
  | Some _ => (st, [], Fulfilled)              (* if (result) return; *)
  | None =>
      (ScreenState (questionData st) (Some answer) (result st) (loading st),
                                                (* setSelectedAnswer(answer) *)
       [CheckAnswerRequest answer],             (* await api.checkAnswer(answer) *)
       Awaiting)
  end.

(** The rest of [handleAnswer], run when [api.checkAnswer] has settled
    with [reply]; [st] is the state of the component at that time.  The
    handler catches a failed request, so its promise is fulfilled either
    way. *)
Definition handleAnswer_resume (reply : completion answer_data)
           (st : screen_state)
  : screen_state * list effect * handler_status :=
  match reply with
  | Returns data =>
      (ScreenState (questionData st) (selectedAnswer st) (Some data)
                   (loading st),                (* setResult(data) *)
       [ScheduleAdvance (has_more data)], Fulfilled)
  | Throws _ => (st, [ConsoleError], Fulfilled)
  end.

(** [loadQuestion()], which the timer of [handleAnswer] calls when there
    are more questions, from the settling of [api.getQuestion] on: the next
    question replaces the current one and the selection and the result are
    reset. *)
Definition loadQuestion (getQuestion : completion question_data)
           (st : screen_state) : screen_state :=
  match getQuestion with
  | Returns data => ScreenState (Some data) None None false
  | Throws _ =>
      ScreenState (questionData st) (selectedAnswer st) (result st) false
  end.

(** [loadQuestion()] up to its [await]: [setLoading(true)]. *)
Definition loadQuestion_start (st : screen_state) : screen_state :=
  ScreenState (questionData st) (selectedAnswer st) (result st) true.

(** A screen that shows the result of an answer, a screen without a
    question, and a reply that calls the answer wrong. *)
Definition answered_screen : screen_state :=
  ScreenState None (Some (js "B")) (Some (AnswerData true (js "B") true)) false.

Definition fresh_screen : screen_state := ScreenState None None None false.

Definition wrong_reply : answer_data := AnswerData false (js "A") true.

Definition next_question : question_data :=
  QuestionData (VString (js "What is 2 + 2?"))
               [(js "A", js "3"); (js "B", js "4")] 2 2 1.

End QuizScreen.

(** ** The question-bank parser

    The parser runs on the server; the sources hold only the format
    instructions of the help dialog (App.jsx), which give the markers.
    Everything in this module is modelled from the specification,
    sections 3 and 4.1. *)

Module Parser.

(** The markers, as the help dialog of the application writes them: the
    word between two runs of three double quotes. *)
Definition triple_quote : js_string := [34; 34; 34]%N.
Definition QUESTION : js_string := triple_quote ++ js "QUESTION" ++ triple_quote.
Definition CHOICES : js_string := triple_quote ++ js "CHOICES" ++ triple_quote.
Definition ANSWER : js_string := triple_quote ++ js "ANSWER" ++ triple_quote.

(** Modelled from the spec: the letters of the choices, section 3. *)
Inductive letter : Type := A | B | C | D.

(** Modelled from the spec: equality of letters. *)
Definition letter_eqb (x y : letter) : bool :=
  match x, y with
  | A, A | B, B | C, C | D, D => true
  | _, _ => false
  end.

(** Modelled from the spec: QuestionRecord, section 3.  The prompt is kept
    as the text of the block, code spans included and not interpreted. *)
Record QuestionRecord : Type := Question {
  text : js_string;
  choices : list (letter * js_string);
  correctLetter : letter
}.

(** Modelled from the spec: the rule that a block broke (section 4.1,
    steps 3 to 6 and the edge cases). *)
Inductive rule : Type :=
| MissingChoicesMarker
| MissingAnswerMarker
| EmptyPrompt
| WrongChoiceCount
| UnrecognizedLetter
| DuplicateLetter
| AnswerNotAmongChoices
| NoQuestionBlocks.

(** Modelled from the spec: ParseError{blockIndex, reason}, section 7. *)
Record ParseError : Type := Error {
  blockIndex : nat;
  reason : rule
}.

(** Modelled from the spec: locating a marker in a block (step 2): the
    text before and after the first occurrence of the marker. *)
Fixpoint cut (m s : js_string) : option (js_string * js_string) :=
  if JsString.starts_with m s then Some ([], drop (length m) s)
  else match s with
       | [] => None
       | c :: rest =>
           match cut m rest with
           | Some (before, after) => Some (c :: before, after)
           | None => None
           end
       end.

(** Modelled from the spec: the letter that a code unit writes, a single
    capital letter A to D (steps 3 and 4). *)
Definition letter_of (c : code_unit) : option letter :=
  if (c =? 65)%N then Some A
  else if (c =? 66)%N then Some B
  else if (c =? 67)%N then Some C
  else if (c =? 68)%N then Some D
  else None.

(** Modelled from the spec: a choice line (step 3) is a capital letter A
    to D, a colon, and the text, which is trimmed (step 5). *)
Definition parse_choice (line : js_string) : option (letter * js_string) :=
  match line with
  | c :: colon :: rest =>
      if (colon =? 58)%N
      then match letter_of c with
           | Some l => Some (l, JsString.trim rest)
           | None => None
           end
      else None
  | _ => None
  end.

(** Modelled from the spec: the choice lines, in the order as authored
    (step 3). *)
Fixpoint parse_choices (lines : list js_string)
  : option (list (letter * js_string)) :=
  match lines with
  | [] => Some []
  | line :: rest =>
      match parse_choice line, parse_choices rest with
      | Some c, Some cs => Some (c :: cs)
      | _, _ => None
      end
  end.

(** Modelled from the spec: no letter occurs twice (step 3). *)
Fixpoint distinct (ls : list letter) : bool :=
  match ls with
  | [] => true
  | l :: rest => negb (existsb (letter_eqb l) rest) && distinct rest
  end.

(** Modelled from the spec: a field is not empty (step 5). *)
Definition nonempty (s : js_string) : bool :=
  match s with
  | [] => false
  | _ :: _ => true
  end.

(** Modelled from the spec: the validation of one question block (the
    parser runs on the server, outside these sources).  Section 4.1, steps
    2 to 5: the prompt is the text before the CHOICES marker; the lines
    between CHOICES and ANSWER, blank lines apart, are the four choices
    [<Letter>: <text>] with four distinct letters; the letter behind
    ANSWER is one of the letters of the choices; every field is trimmed
    and the prompt is not empty. *)
Definition parse_block (block : js_string) : rule + QuestionRecord :=
  match cut CHOICES block with
  | None => inl MissingChoicesMarker
  | Some (prompt, rest) =>
      match cut ANSWER rest with
      | None => inl MissingAnswerMarker
      | Some (choice_text, answer_text) =>
          if negb (nonempty (JsString.trim prompt)) then inl EmptyPrompt
          else
            let lines :=
              List.filter nonempty
                (map JsString.trim (JsString.split [10%N] choice_text)) in
            if negb (length lines =? 4) then inl WrongChoiceCount
            else
              match parse_choices lines with
              | None => inl UnrecognizedLetter
              | Some cs =>
                  if negb (distinct (map fst cs)) then inl DuplicateLetter
                  else
                    match JsString.trim answer_text with
                    | [c] =>
                        match letter_of c with
                        | Some l =>
                            if existsb (letter_eqb l) (map fst cs)
                            then inr (Question (JsString.trim prompt) cs l)
                            else inl AnswerNotAmongChoices
                        | None => inl AnswerNotAmongChoices
                        end
                    | _ => inl AnswerNotAmongChoices
                    end
              end
      end
  end.

(** Modelled from the spec: step 6, blocks are validated in order and the
    first block that fails ends the parse with its 1-based index. *)
Fixpoint parse_blocks (index : nat) (blocks : list js_string)
  : ParseError + list QuestionRecord :=
  match blocks with
  | [] => inr []
  | block :: rest =>
      match parse_block block with
      | inl r => inl (Error index r)
      | inr q =>
          match parse_blocks (S index) rest with
          | inl e => inl e
          | inr qs => inr (q :: qs)
          end
      end
  end.

(** Modelled from the spec: [parse(rawText)], section 4.1.  The text is
    split at the QUESTION marker; what precedes the first marker is
    preamble; a text without a block is an error, reported with block
    index 0. *)
Definition parse (rawText : js_string) : ParseError + list QuestionRecord :=
  match JsString.split QUESTION rawText with
  | [] | [_] => inl (Error 0 NoQuestionBlocks)
  | _ :: blocks => parse_blocks 1 blocks
  end.

(** Modelled from the spec: the candidate blocks of a text (step 1): the
    chunks behind the QUESTION markers. *)
Definition blocks_of (rawText : js_string) : list js_string :=
  tail (JsString.split QUESTION rawText).

(** Sample blocks, written the way the help dialog shows the format: the
    prompt, the CHOICES marker, one choice per line and, if there is one,
    the ANSWER marker with the answer. *)
Definition newline : js_string := [10%N].

Definition block_of (prompt : string) (choice_lines : list string)
           (answer : option string) : js_string :=
  newline ++ js prompt ++ newline
  ++ CHOICES ++ newline
  ++ concat (map (fun l => js l ++ newline) choice_lines)
  ++ match answer with
     | Some a => ANSWER ++ newline ++ js a ++ newline
     | None => []
     end.

Definition four_choices : list string := ["A: 1"; "B: 2"; "C: 3"; "D: 4"]%string.

Definition sample_block (answer : string) : js_string :=
  block_of "What is 1 + 1?" four_choices (Some answer).

Definition block_without_answer : js_string :=
  block_of "What is 2 + 2?" four_choices None.

Definition sample_question (answer : letter) : QuestionRecord :=
  Question (js "What is 1 + 1?")
           [(A, js "1"); (B, js "2"); (C, js "3"); (D, js "4")] answer.

End Parser.

(** ** The quiz session engine

    The engine runs on the server, outside these sources.  Everything in
    this module is modelled from the specification, sections 3 and 4.3. *)

Module Session.

Import Parser.

(** Modelled from the spec: the states of section 4.3. *)
Inductive session_state : Type :=
| InProgress (currentIndex score : nat) (answeredCurrent : bool)
| Completed (score total : nat).

(** Modelled from the spec: QuizSession, sections 3 and 4.3: the deck and
    the state over it. *)
Record QuizSession : Type := Session {
  deck : list QuestionRecord;
  state : session_state
}.

(** Modelled from the spec: the errors of the state machine, section 7. *)
Inductive session_error : Type :=
| AlreadyAnsweredError
| NotAnsweredError
| OutOfRangeError
| NotCompletedError.

(** Modelled from the spec: the value {correct, correctLetter} of
    [submitAnswer], section 4.3. *)
Record answer_result : Type := AnswerResult {
  correct : bool;
  correctLetter_of : letter
}.

(** Modelled from the spec: the value {score, total, percentage} of
    [results], section 4.3. *)
Record results_summary : Type := Summary {
  score : nat;
  total : nat;
  percentage : Z
}.

(** Modelled from the spec: [new QuizSession(deck)], section 4.3: the
    initial state is InProgress(0, 0, false). *)
Definition new_session (deck : list QuestionRecord) : QuizSession :=
  Session deck (InProgress 0 0 false).

(** Modelled from the spec: [currentQuestion()], section 4.3. *)
Definition currentQuestion (s : QuizSession)
  : session_error + QuestionRecord :=
  match state s with
  | InProgress i _ _ =>
      match deck s !! i with
      | Some q => inr q
      | None => inl OutOfRangeError
      end
  | Completed _ _ => inl OutOfRangeError
  end.

(** Modelled from the spec: [submitAnswer(letter)], section 4.3 (the
    engine runs on the server, outside these sources).  Valid once per
    question and only in InProgress; a second call before [advance] fails
    with AlreadyAnsweredError; a match increments the score; the index
    does not move.  Without a current question the call fails with
    OutOfRangeError. *)
Definition submitAnswer (l : letter) (s : QuizSession)
  : session_error + (QuizSession * answer_result) :=
  match state s with
  | Completed _ _ => inl OutOfRangeError
  | InProgress i sc true => inl AlreadyAnsweredError
  | InProgress i sc false =>
      match deck s !! i with
      | None => inl OutOfRangeError
      | Some q =>
          let ok := letter_eqb l (correctLetter q) in
          inr (Session (deck s)
                 (InProgress i (if ok then S sc else sc) true),
               AnswerResult ok (correctLetter q))
      end
  end.

(** Modelled from the spec: [advance()], section 4.3. *)
Definition advance (s : QuizSession) : session_error + QuizSession :=
  match state s with
  | InProgress i sc true =>
      if S i =? length (deck s)
      then inr (Session (deck s) (Completed sc (length (deck s))))
      else inr (Session (deck s) (InProgress (S i) sc false))
  | InProgress _ _ false => inl NotAnsweredError
  | Completed _ _ => inl NotAnsweredError
  end.

(** Modelled from the spec: [restart()], section 4.3. *)
Definition restart (s : QuizSession) : QuizSession :=
  Session (deck s) (InProgress 0 0 false).

(** Modelled from the spec: rounding to the nearest whole number, ties
    rounding up (section 4.3, [results]). *)
Definition round_half_up (q : Q) : Z := Qfloor (q + (1 # 2))%Q.

(** Modelled from the spec: [results()], section 4.3, in its strict
    reading: valid only in Completed; the result is
    {score, total: len(deck), percentage: round(100 * score / total)}. *)
Definition results (s : QuizSession) : session_error + results_summary :=
  match state s with
  | Completed sc _ =>
      let total := length (deck s) in
      inr (Summary sc total
             (round_half_up
                (100 * inject_Z (Z.of_nat sc) / inject_Z (Z.of_nat total))%Q))
  | InProgress _ _ _ => inl NotCompletedError
  end.

End Session.

(** ** More of the content renderer: keys and kinds *)

Module RendererView.

Import Renderer.

(** The React key of an element of the container; the empty string has
    none. *)
Definition child_key (c : child) : option nat :=
  match c with
  | CodeBlock key _ | ProseDiv key _ => Some key
  | EmptyText => None
  end.

Definition is_code (seg : segment) : bool :=
  match seg_kind seg with
  | code => true
  | prose => false
  end.

End RendererView.

(** ** More of the history log: clearing *)

Module HistoryLog.

Import History.

(** The events of a run that follow its last clearing. *)
Definition since_last_clear (evs : list event) : list event :=
  fold_left (fun acc ev => match ev with
                           | Clear => []
                           | _ => acc ++ [ev]
                           end) evs [].

End HistoryLog.

(** ** The history screens (HistoryScreen.jsx, static/script.js) *)

Module HistoryView.

Import History.

(** [Math.round(x)]: the nearest integer, a half rounding up. *)
Definition Math_round (x : js_number) : js_number :=
  match x with
  | Finite q => Finite (inject_Z (Qfloor (q + (1 # 2))%Q))
  | _ => x
  end.

(** ToNumber, for the values that need no reading of a string. *)
Definition ToNumber (v : js_value) : option js_number :=
  match v with
  | VUndefined => Some NaN
  | VNull => Some (Finite 0)
  | VBool b => Some (Finite (if b then 1 else 0))
  | VNumber x => Some x
  | VString _ => None
  end.

(** [entry.key]: [undefined] when the entry has no such key. *)
Definition field (e : entry) (key : string) : js_value :=
  match e !! key with
  | Some v => v
  | None => VUndefined
  end.

(** The colours of the badge of a card: bg-green-100 text-green-700 or
    bg-orange-100 text-orange-700. *)
Inductive badge : Type := GreenBadge | OrangeBadge.

(** HistoryScreen.jsx, the card of one entry: the badge with its rounded
    percentage and the line score / total.  (The date line is printed in
    the locale of the browser and is left out.)  There is no card in this
    model when the percentage is a string. *)
Record card : Type := Card {
  card_badge : badge;
  card_label : js_number;
  card_score : js_value;
  card_total : js_value
}.

Definition HistoryScreen_card (e : entry) : option card :=
  match ToNumber (field e "percentage") with
  | Some p =>
      Some (Card (if js_ge p 70 then GreenBadge else OrangeBadge)
                 (Math_round p) (field e "score") (field e "total"))
  | None => None
  end.

(** HistoryScreen.jsx, what the screen shows for its state [history]. *)
Record history_screen : Type := HistoryScreenView {
  clear_disabled : bool;          (* disabled={history.length === 0} *)
  empty_notice : bool;            (* No quiz history yet. *)
  cards : list (option card)
}.

Definition HistoryScreen_render (history : list entry) : history_screen :=
  if length history =? 0
  then HistoryScreenView true true []
  else HistoryScreenView false false (map HistoryScreen_card history).

(** HistoryScreen.jsx, the effect at mount: the state is the stored log. *)
Definition HistoryScreen_mount (ls : local_storage) : list entry :=
  read_history ls.

(** HistoryScreen.jsx, [clearHistory]: the storage and the state after
    the user answered the confirmation. *)
Definition HistoryScreen_clearHistory (confirmed : bool)
           (ls : local_storage) (history : list entry)
  : local_storage * list entry :=
  if confirmed then (None, []) else (ls, history).

(** static/script.js, [loadHistoryFromStorage]: whether the empty notice
    is hidden, and per entry the values put into the item: percentage,
    score, total and duration. *)
Record history_list : Type := HistoryList {
  emptyState_hidden : bool;
  items : list (js_value * js_value * js_value * js_value)
}.

Definition loadHistoryFromStorage (ls : local_storage) : history_list :=
  let history := read_history ls in
  if length history =? 0
  then HistoryList false []
  else HistoryList true
         (map (fun e => (field e "percentage", field e "score",
                         field e "total", field e "duration")) history).

End HistoryView.

(** ** More built-ins: comparison of strings, [parseInt], letter case *)

Module JsGlobal.

(** [a < b] on strings: by code units, a proper prefix being smaller. *)
Fixpoint string_lt (a b : js_string) : bool :=
  match a, b with
  | _, [] => false
  | [], _ :: _ => true
  | x :: a', y :: b' =>
      if (x <? y)%N then true
      else if (y <? x)%N then false
      else string_lt a' b'
  end.

(** [a >= b] and [a <= b] on strings. *)
Definition string_ge (a b : js_string) : bool := negb (string_lt a b).
Definition string_le (a b : js_string) : bool := negb (string_lt b a).

(** The value of a code unit as a digit of the radix, if it is one. *)
Definition digit_of (radix : N) (c : code_unit) : option N :=
  let v := if ((48 <=? c) && (c <=? 57))%N then Some (c - 48)%N
           else if ((97 <=? c) && (c <=? 122))%N then Some (c - 87)%N
           else if ((65 <=? c) && (c <=? 90))%N then Some (c - 55)%N
           else None in
  match v with
  | Some d => if (d <? radix)%N then Some d else None
  | None => None
  end.

(** The value of the longest prefix of digits; [acc] is the value read so
    far, [None] before the first digit. *)
Fixpoint read_digits (radix : N) (acc : option N) (s : js_string) : option N :=
  match s with
  | [] => acc
  | c :: rest =>
      match digit_of radix c with
      | Some d =>
          read_digits radix
            (Some (match acc with
                   | Some n => n * radix + d
                   | None => d
                   end)%N) rest
      | None => acc
      end
  end.

(** [parseInt(s)], without a radix: leading white space is skipped, a
    sign is read, a prefix 0x or 0X selects radix 16, and the longest
    prefix of digits is the value; [None] is NaN.  (A value beyond the
    integers that a double holds exactly is returned rounded by the
    built-in and exact here.) *)
Definition parseInt (s : js_string) : option Z :=
  let s := JsString.trimStart s in
  let '(negative, s) :=
    match s with
    | c :: rest =>
        if (c =? 45)%N then (true, rest)
        else if (c =? 43)%N then (false, rest)
        else (false, s)
    | [] => (false, s)
    end in
  let '(radix, s) :=
    match s with
    | a :: b :: rest =>
        if ((a =? 48) && ((b =? 120) || (b =? 88)))%N
        then (16%N, rest) else (10%N, s)
    | _ => (10%N, s)
    end in
  match read_digits radix None s with
  | Some n => Some (if negative then - Z.of_N n else Z.of_N n)%Z
  | None => None
  end.

(** [s.toUpperCase()] and [s.toLowerCase()] on texts of ASCII code units:
    only the letters a to z and A to Z change. *)
Definition toUpperCase_ascii (s : js_string) : js_string :=
  map (fun c => if ((97 <=? c) && (c <=? 122))%N then (c - 32)%N else c) s.

Definition toLowerCase_ascii (s : js_string) : js_string :=
  map (fun c => if ((65 <=? c) && (c <=? 90))%N then (c + 32)%N else c) s.

(** [array.indexOf(x)] on an array of strings. *)
Fixpoint indexOf (x : js_string) (array : list js_string) : option nat :=
  match array with
  | [] => None
  | y :: rest =>
      if decide (x = y) then Some 0
      else match indexOf x rest with
           | Some i => Some (S i)
           | None => None
           end
  end.

End JsGlobal.

(** ** The quiz screen: keyboard shortcuts and a whole quiz *)

Module QuizKeys.

Import QuizScreen JsGlobal.

(** What the handler of keydown does with a key. *)
Inductive key_outcome : Type :=
| KeyIgnored
| KeyAnswer (answer : js_string)     (* handleAnswer(answer) is called *)
| KeyThrows (e : js_error).

Definition choices : list js_string := [js "a"; js "b"; js "c"; js "d"].

(** [choices[i].toUpperCase()] for a number [i]; an index outside the
    array gives [undefined], on which the call throws. *)
Definition choice_upper (i : Z) : key_outcome :=
  if (i <? 0)%Z then KeyThrows TypeError
  else match choices !! Z.to_nat i with
       | Some c => KeyAnswer (toUpperCase_ascii c)
       | None => KeyThrows TypeError
       end.

(** QuizScreen.jsx, [handleKeyDown], for the value [e.key].  The case
    mapping of the key is the built-in [toLowerCase], a parameter here. *)
Definition handleKeyDown (toLowerCase : js_string -> js_string)
           (e_key : js_string) (st : screen_state) : key_outcome :=
  if loading st || match result st with Some _ => true | None => false end
  then KeyIgnored
  else
    let key := toLowerCase e_key in
    match indexOf key choices with
    | Some index => choice_upper (Z.of_nat index)
    | None =>
        if string_ge key (js "1") && string_le key (js "4")
        then match parseInt key with
             | Some n => choice_upper (n - 1)
             | None => KeyThrows TypeError
             end
        else KeyIgnored
    end.

End QuizKeys.

(** ** QuizScreen.jsx: the handlers as they interleave *)

Module QuizRun.

Import QuizScreen.

(** What happens on the screen during a quiz.  An answer is given, by a
    click or a key: [handleAnswer] is called.  A request of
    [handleAnswer] settles and the handler resumes.  [loadQuestion] is
    called, by the mount or by the timer.  A request of [loadQuestion]
    settles and it resumes. *)
Inductive event : Type :=
| AnswerGiven (answer : js_string)
| AnswerSettles (reply : completion answer_data)
| QuestionRequested
| QuestionSettles (reply : completion question_data).

(** The component while it runs: its state, the number of requests of
    [handleAnswer] that have not settled yet, and the effects so far. *)
Record running : Type := Running {
  screen : screen_state;
  in_flight : nat;
  log : list effect
}.

Definition start (st : screen_state) : running := Running st 0 [].

(** One event.  A reply can only come for a request that is in flight;
    a reply for [loadQuestion] is taken to be possible at any time. *)
Definition step (r : running) (ev : event) : running :=
  match ev with
  | AnswerGiven answer =>
      let '(st, effects, status) := handleAnswer answer (screen r) in
      Running st
              (match status with
               | Awaiting => S (in_flight r)
               | _ => in_flight r
               end)
              (log r ++ effects)
  | AnswerSettles reply =>
      match in_flight r with
      | O => r
      | S n =>
          let '(st, effects, _) := handleAnswer_resume reply (screen r) in
          Running st n (log r ++ effects)
      end
  | QuestionRequested =>
      Running (loadQuestion_start (screen r)) (in_flight r) (log r)
  | QuestionSettles reply =>
      Running (loadQuestion reply (screen r)) (in_flight r) (log r)
  end.

Definition run (events : list event) (r : running) : running :=
  fold_left step events r.

(** No answer is given while a request of [handleAnswer] is in flight. *)
Fixpoint one_at_a_time (events : list event) (r : running) : bool :=
  match events with
  | [] => true
  | ev :: rest =>
      match ev with
      | AnswerGiven _ => in_flight r =? 0
      | _ => true
      end && one_at_a_time rest (step r ev)
  end.

(** The answers that were accepted: each schedules an advance. *)
Definition is_accepted (e : effect) : bool :=
  match e with
  | ScheduleAdvance _ => true
  | _ => false
  end.

(** The questions that were loaded. *)
Definition is_loaded (ev : event) : bool :=
  match ev with
  | QuestionSettles (Returns _) => true
  | _ => false
  end.

(** Whether the screen still takes an answer for its question. *)
Definition open_question (st : screen_state) : nat :=
  match result st with
  | None => 1
  | Some _ => 0
  end.

(** A quiz of two questions, each answered once its question is there. *)
Definition two_questions : list event :=
  [AnswerGiven (js "B"); AnswerSettles (Returns wrong_reply);
   QuestionRequested; QuestionSettles (Returns next_question);
   AnswerGiven (js "A"); AnswerSettles (Returns wrong_reply)].

End QuizRun.

(** ** The legacy page (static/script.js): keyboard and pasted text *)

Module LegacyPage.

Import JsGlobal.

(** The text in #feedback. *)
Inductive feedback : Type :=
| NoFeedback
| PleaseSelect.                 (* Please select an answer *)

(** The part of the page that the keyboard handler and [checkAnswer] read
    and write: the module variable [keyboardShortcutsEnabled], whether
    #quizScreen is hidden, the letters of the choices on display (the radio
    of letter L has the id choiceL and the value L), the value of the
    checked radio, and the feedback. *)
Record page : Type := Page {
  keyboardShortcutsEnabled : bool;
  quizScreen_hidden : bool;
  choice_letters : list js_string;
  checked : option js_string;
  feedback_text : feedback
}.

Inductive effect : Type :=
| PreventDefault
| PostAnswer (answer : js_string).    (* POST /api/answer *)

Definition letters : list js_string := [js "A"; js "B"; js "C"; js "D"].

(** [letters[i]] for a number [i], and its text in ['choice' + letter]:
    outside the array the value is [undefined]. *)
Definition letter_at (i : option Z) : option js_string :=
  match i with
  | Some i => if (i <? 0)%Z then None else letters !! Z.to_nat i
  | None => None
  end.

Definition letter_text (letter : option js_string) : js_string :=
  match letter with
  | Some l => l
  | None => js "undefined"
  end.

(** [document.getElementById('choice' + letter)] finds the radio of a
    displayed choice; then [selectChoice] checks it. *)
Definition select (letter : option js_string) (p : page) : page :=
  if bool_decide (letter_text letter ∈ choice_letters p)
  then Page (keyboardShortcutsEnabled p) (quizScreen_hidden p)
            (choice_letters p) (Some (letter_text letter)) (feedback_text p)
  else p.

(** [checkAnswer()], up to the sending of the request. *)
Definition checkAnswer (p : page) : page * list effect :=
  match checked p with
  | None =>
      (Page (keyboardShortcutsEnabled p) (quizScreen_hidden p)
            (choice_letters p) (checked p) PleaseSelect, [])
  | Some answer =>
      (Page false (quizScreen_hidden p) (choice_letters p) (checked p)
            (feedback_text p),            (* disableKeyboardShortcuts() *)
       [PostAnswer answer])
  end.

(** The listener of keydown on the document, for an event with the tag
    name of its target and its key. *)
Definition keydown (toLowerCase : js_string -> js_string)
           (target_tagName e_key : js_string) (p : page)
  : page * list effect :=
  if bool_decide (target_tagName = js "TEXTAREA")
     || bool_decide (target_tagName = js "INPUT") then (p, [])
  else if quizScreen_hidden p || negb (keyboardShortcutsEnabled p) then (p, [])
  else
    let key := toLowerCase e_key in
    let '(p, effects) :=
      if string_ge key (js "1") && string_le key (js "4")
      then (select (letter_at (option_map (fun n => n - 1)%Z (parseInt key))) p,
            [PreventDefault])
      else (p, []) in
    let '(p, effects) :=
      if bool_decide (key = js "a") || bool_decide (key = js "b")
         || bool_decide (key = js "c") || bool_decide (key = js "d")
      then (select (Some (toUpperCase_ascii key)) p, effects ++ [PreventDefault])
      else (p, effects) in
    if bool_decide (key = js "enter") || bool_decide (key = js " ")
    then let '(p, sent) := checkAnswer p in
         (p, effects ++ [PreventDefault] ++ sent)
    else (p, effects).

(** A run of keydown events, each with its target and key. *)
Definition keydowns (toLowerCase : js_string -> js_string)
           (events : list (js_string * js_string)) (p : page)
  : page * list effect :=
  fold_left (fun acc ev =>
               let '(p', effects) := keydown toLowerCase (fst ev) (snd ev) (fst acc) in
               (p', snd acc ++ effects))
            events (p, []).

Definition is_post (e : effect) : bool :=
  match e with
  | PostAnswer _ => true
  | PreventDefault => false
  end.

(** [displayQuestion(data)], for the letters of [data.choices]: the quiz
    screen is shown with fresh radios and the shortcuts are enabled. *)
Definition displayQuestion (data_letters : list js_string) (p : page) : page :=
  Page true false data_letters None NoFeedback.

(** The pages that differ from [p] at most in the checked radio and the
    feedback, the radio being that of [p] or one of its choices. *)
Definition same_question (p p' : page) : Prop :=
  quizScreen_hidden p' = quizScreen_hidden p /\
  choice_letters p' = choice_letters p /\
  (checked p' = checked p \/
   exists a, checked p' = Some a /\ In a (choice_letters p)).

(** What [submitPastedText] does up to the request, for the value of the
    text area. *)
Inductive paste_effect : Type :=
| Alert (message : js_string)
| PostPaste (text : js_string).       (* POST /api/paste with {text} *)

Definition submitPastedText (textarea_value : js_string) : list paste_effect :=
  let text := JsString.trim textarea_value in
  match text with
  | [] => [Alert (js "Please paste some text first!")]
  | _ :: _ => [PostPaste text]
  end.

(** StartScreen.jsx, [handlePasteSubmit], up to the request: the state
    [text] is sent as it is. *)
Definition handlePasteSubmit (text : js_string) : list paste_effect :=
  match JsString.trim text with
  | [] => []
  | _ :: _ => [PostPaste text]
  end.

End LegacyPage.

(** ** services/api.js: [fetchWithCredentials] *)

Module Api.

(** A field of the options of [fetch]: a text (method, body, credentials,
    ...) or a plain object of texts (headers). *)
Inductive init_value : Type :=
| IText (s : js_string)
| IObject (o : gmap string js_string).

Abbreviation request_init := (gmap string init_value).

Definition defaultHeaders : gmap string js_string :=
  {[ "Content-Type"%string := js "application/json" ]}.

(** The properties that [{...v}] copies from a field [v]: those of an
    object, the code units of a text under their indices, none when the
    field is missing. *)
Definition spread (v : option init_value) : gmap string js_string :=
  match v with
  | Some (IObject o) => o
  | Some (IText s) =>
      list_to_map
        (imap (fun i c => (DecimalString.NilZero.string_of_uint (Nat.to_uint i), [c])) s)
  | None => ∅
  end.

(** The second argument of the call of [fetch]:
    [{...options, credentials: 'include',
      headers: {...defaultHeaders, ...options.headers}}]. *)
Definition fetch_init (options : request_init) : request_init :=
  <[ "headers"%string := IObject (spread (options !! "headers"%string) ∪ defaultHeaders) ]>
    (<[ "credentials"%string := IText (js "include") ]> options).

(** A parsed JSON body: a primitive or an object (an array being an object
    with its indices as keys). *)
#[warnings="-register-all"] Inductive json : Type :=
| JValue (v : js_value)
| JObject (fields : gmap string json).

Definition truthy (j : json) : bool :=
  match j with
  | JValue v => ToBoolean v
  | JObject _ => true
  end.

(** [error.error] *)
Definition get_error (error : json) : completion json :=
  match error with
  | JValue VNull | JValue VUndefined => Throws TypeError
  | JValue _ => Returns (JValue VUndefined)
  | JObject fields =>
      Returns (match fields !! "error"%string with
               | Some v => v
               | None => JValue VUndefined
               end)
  end.

(** A response: [response.ok] and the completion of [response.json()]. *)
Record response : Type := Response {
  ok : bool;
  json_body : completion json
}.

(** How the promise of [fetchWithCredentials] settles; [RejectsNewError m]
    is the rejection with [new Error(m)]. *)
Inductive outcome : Type :=
| Resolves (data : json)
| Rejects (e : js_error)
| RejectsNewError (message : json).

Definition fetchWithCredentials
           (fetch : js_string -> request_init -> completion response)
           (url : js_string) (options : request_init) : outcome :=
  match fetch url (fetch_init options) with
  | Throws e => Rejects e
  | Returns response =>
      if negb (ok response) then
        match json_body response with
        | Throws e => Rejects e
        | Returns error =>
            match get_error error with
            | Throws e => Rejects e
            | Returns message =>
                RejectsNewError
                  (if truthy message then message
                   else JValue (VString (js "Request failed")))
            end
        end
      else
        match json_body response with
        | Throws e => Rejects e
        | Returns data => Resolves data
        end
  end.

(** A server that refuses every request with the status 400 and the body
    [{"error": "No quiz loaded"}]. *)
Definition refused_fields : gmap string json :=
  {[ "error"%string := JValue (VString (js "No quiz loaded")) ]}.
Definition refused : response := Response false (Returns (JObject refused_fields)).
Definition refusing_fetch (url : js_string) (init : request_init)
  : completion response := Returns refused.

End Api.

(** ** App.jsx: the screens *)

Module App.

Inductive screen_name : Type :=
| landing | start | quiz | results | history | auth | settings.

(** The state of [App]; [user] is [None] for [null] and any other falsy
    value. *)
Record app : Type := App {
  screen : screen_name;
  showHelp : bool;
  user : option js_string;
  authChecked : bool
}.

Definition initial : app := App landing false None false.

Definition setScreen (n : screen_name) (s : app) : app :=
  App n (showHelp s) (user s) (authChecked s).
Definition setShowHelp (b : bool) (s : app) : app :=
  App (screen s) b (user s) (authChecked s).
Definition setUser (u : option js_string) (s : app) : app :=
  App (screen s) (showHelp s) u (authChecked s).
Definition setAuthChecked (b : bool) (s : app) : app :=
  App (screen s) (showHelp s) (user s) b.

Definition signed_in (s : app) : bool :=
  match user s with Some _ => true | None => false end.

(** What happens to [App]: the request of the mount settles, a button of
    the header or of the help is clicked, a screen calls one of its
    callbacks, or a request started by a handler settles. *)
Inductive event : Type :=
| checkAuth_resolved (authenticated : bool) (data_user : option js_string)
| checkAuth_rejected
| click_logo
| click_settings
| click_history
| click_logout                       (* starts api.logout() *)
| click_sign_in
| click_help
| close_help
| onLogin (userData : option js_string)
| onStart
| onHistory
| onQuizStart
| onComplete
| onRestart                          (* starts api.restartQuiz() *)
| onHome                             (* starts api.resetQuiz() *)
| onBack
| logout_resolved
| restartQuiz_resolved
| resetQuiz_resolved
| request_rejected.                  (* console.error *)

(** One event.  The effect of the mount runs once; until it has settled
    [App] renders the loading notice alone, so nothing else can happen.
    A button that is not rendered cannot be clicked; a callback or the
    completion of a request is taken to be possible at any time. *)
Definition step (ev : event) (s : app) : app :=
  match ev with
  | checkAuth_resolved authenticated data_user =>
      if authChecked s then s
      else setAuthChecked true (if authenticated then setUser data_user s else s)
  | checkAuth_rejected =>
      if authChecked s then s else setAuthChecked true s
  | _ =>
      if negb (authChecked s) then s
      else
        match ev with
        | click_logo => setScreen landing s
        | click_settings => if signed_in s then setScreen settings s else s
        | click_history => if signed_in s then setScreen history s else s
        | click_logout => s
        | click_sign_in => if signed_in s then s else setScreen auth s
        | click_help => setShowHelp true s
        | close_help => setShowHelp false s
        | onLogin userData => setScreen landing (setUser userData s)
        | onStart => if signed_in s then setScreen start s else setScreen auth s
        | onHistory => if signed_in s then setScreen history s else setScreen auth s
        | onQuizStart => setScreen quiz s
        | onComplete => setScreen results s
        | onRestart => s
        | onHome => s
        | onBack => setScreen landing s
        | logout_resolved => setScreen landing (setUser None s)
        | restartQuiz_resolved => setScreen quiz s
        | resetQuiz_resolved => setScreen start s
        | request_rejected => s
        | checkAuth_resolved _ _ | checkAuth_rejected => s
        end
  end.

Definition run (events : list event) (s : app) : app :=
  fold_left (fun s ev => step ev s) events s.

Definition members_only (n : screen_name) : bool :=
  match n with
  | history | settings => true
  | _ => false
  end.

End App.

(** ** The requests of the clients *)

Module Requests.

Import Api.

(** [{method: 'POST', body}] *)
Definition post (body : js_string) : request_init :=
  <[ "method"%string := IText (js "POST") ]> {[ "body"%string := IText body ]}.

Definition API_BASE : js_string := js "http://localhost:5001/api".

(** The url and the options that reach [fetch] from the methods of [api]
    that post JSON; [body] is the text that [JSON.stringify] returns. *)
Definition api_login (body : js_string) : js_string * request_init :=
  (API_BASE ++ js "/auth/login", fetch_init (post body)).
Definition api_signup (body : js_string) : js_string * request_init :=
  (API_BASE ++ js "/auth/signup", fetch_init (post body)).
Definition api_pasteText (body : js_string) : js_string * request_init :=
  (API_BASE ++ js "/paste", fetch_init (post body)).
Definition api_checkAnswer (body : js_string) : js_string * request_init :=
  (API_BASE ++ js "/answer", fetch_init (post body)).
(** [api.getQuestion()]: no options. *)
Definition api_getQuestion : js_string * request_init :=
  (API_BASE ++ js "/question", fetch_init ∅).

(** The options written out in AuthScreen.jsx and in static/script.js:
    [{method: 'POST', headers: {'Content-Type': 'application/json'},
      credentials: 'include', body}], in either order of the last two. *)
Definition written_out (body : js_string) : request_init :=
  <[ "method"%string := IText (js "POST") ]>
    (<[ "headers"%string :=
          IObject {[ "Content-Type"%string := js "application/json" ]} ]>
       (<[ "credentials"%string := IText (js "include") ]>
          {[ "body"%string := IText body ]})).

(** AuthScreen.jsx, [handleSubmit]: the request. *)
Definition AuthScreen_handleSubmit (isLogin : bool) (body : js_string)
  : js_string * request_init :=
  let endpoint := if isLogin then js "/api/auth/login" else js "/api/auth/signup" in
  (js "http://localhost:5001" ++ endpoint, written_out body).

(** static/script.js: the requests of [submitPastedText], [checkAnswer]
    and [loadQuestion], with [API_BASE] being '/api'. *)
Definition legacy_API_BASE : js_string := js "/api".
Definition legacy_submitPastedText (body : js_string) : js_string * request_init :=
  (legacy_API_BASE ++ js "/paste", written_out body).
Definition legacy_checkAnswer (body : js_string) : js_string * request_init :=
  (legacy_API_BASE ++ js "/answer", written_out body).
Definition legacy_loadQuestion : js_string * request_init :=
  (legacy_API_BASE ++ js "/question",
   {[ "credentials"%string := IText (js "include") ]}).

End Requests.

(** ** SettingsScreen.jsx: [detectProvider] *)

Module Settings.

Import JsString.

Definition detectProvider (key : js_string) : js_string :=
  if starts_with (js "sk-ant-") key then js "Claude (Anthropic)"
  else if starts_with (js "AIza") key then js "Gemini (Google)"
  else if bool_decide (key = js "ollama") || starts_with (js "ollama") key
       then js "Ollama (Local)"
  else if starts_with (js "sk-") key then js "OpenAI (GPT)"
  else js "Unknown".

End Settings.


(* ===================================================================== *)
(** * Part II: theorems *)
(* ===================================================================== *)

(** ** Facts about the string built-ins *)

Section TrimFacts.

Import JsString.

Lemma trimStart_decompose (s : js_string) :
  exists w, s = w ++ trimStart s /\ Forall (fun c => is_white_space c = true) w.
Proof.
  induction s as [|c s IH]; simpl.
  - exists []. split; [reflexivity | constructor].
  - destruct (is_white_space c) eqn:Hc.
    + destruct IH as (w & Hs & Hw). exists (c :: w). split.
      * simpl. now rewrite <- Hs.
      * now constructor.
    + exists []. split; [reflexivity | constructor].
Qed.

Lemma trimStart_head (s : js_string) c t :
  trimStart s = c :: t -> is_white_space c = false.
Proof.
  induction s as [|a s IH]; simpl; [discriminate |].
  destruct (is_white_space a) eqn:Ha; [exact IH |].
  intros [= -> _]. exact Ha.
Qed.

Lemma trimEnd_decompose (s : js_string) :
  exists w, s = trimEnd s ++ w /\ Forall (fun c => is_white_space c = true) w.
Proof.
  destruct (trimStart_decompose (rev s)) as (w & Hs & Hw).
  exists (rev w). split.
  - unfold trimEnd. rewrite <- rev_app_distr, <- Hs. now rewrite rev_involutive.
  - now apply List.Forall_rev.
Qed.

Lemma trimEnd_last (s : js_string) t c :
  trimEnd s = t ++ [c] -> is_white_space c = false.
Proof.
  unfold trimEnd. intros H.
  apply (f_equal (@rev code_unit)) in H.
  rewrite rev_involutive, rev_app_distr in H. simpl in H.
  eapply trimStart_head; eauto.
Qed.

(** [trim] removes white space at both ends and nothing else. *)
Lemma trim_decompose (s : js_string) :
  exists w1 w2, s = w1 ++ trim s ++ w2 /\
    Forall (fun c => is_white_space c = true) w1 /\
    Forall (fun c => is_white_space c = true) w2.
Proof.
  destruct (trimStart_decompose s) as (w1 & H1 & Hw1).
  destruct (trimEnd_decompose (trimStart s)) as (w2 & H2 & Hw2).
  exists w1, w2. unfold trim. rewrite <- H2. auto.
Qed.

Lemma trim_no_leading (s : js_string) c t :
  trim s = c :: t -> is_white_space c = false.
Proof.
  unfold trim. intros H.
  destruct (trimEnd_decompose (trimStart s)) as (w & Hs & _).
  rewrite H in Hs. simpl in Hs. eapply trimStart_head; eauto.
Qed.

Lemma trim_no_trailing (s : js_string) t c :
  trim s = t ++ [c] -> is_white_space c = false.
Proof. unfold trim. apply trimEnd_last. Qed.

Lemma trim_trimmed (s : js_string) : trimmed (trim s).
Proof.
  split; intros; [eapply trim_no_leading | eapply trim_no_trailing]; eauto.
Qed.

End TrimFacts.

Section SplitFacts.

Import JsString.

Lemma starts_with_iff (m s : js_string) :
  starts_with m s = true <-> exists s', s = m ++ s'.
Proof.
  revert s. induction m as [|a m IH]; intros s; simpl.
  - split; [intros _; now exists s | reflexivity].
  - destruct s as [|b s].
    + split; [discriminate | intros (s' & H); discriminate].
    + rewrite andb_true_iff, N.eqb_eq, IH. split.
      * intros (-> & s' & ->). now exists s'.
      * intros (s' & [= -> ->]). split; [reflexivity | now exists s'].
Qed.

(** [includes] is the substring test. *)
Lemma includes_iff (m s : js_string) :
  includes m s = true <-> exists a b, s = a ++ m ++ b.
Proof.
  induction s as [|c s IH].
  - simpl. rewrite orb_false_r, starts_with_iff. split.
    + intros (s' & H). now exists [], s'.
    + intros (a & b & H). destruct a; [now exists b |]. discriminate.
  - cbn [includes]. rewrite orb_true_iff, starts_with_iff, IH. split.
    + intros [(s' & H) | (a & b & H)].
      * now exists [], s'.
      * exists (c :: a), b. now rewrite H.
    + intros (a & b & H). destruct a as [|c' a].
      * left. now exists b.
      * right. injection H as _ H. now exists a, b.
Qed.

Variable m : js_string.
Hypothesis m_nonempty : m <> [].

Lemma starts_with_nil : starts_with m [] = false.
Proof. destruct m; [contradiction | reflexivity]. Qed.

(** The scan, read position by position. *)
Lemma scan_ind (P : js_string -> Prop) :
  P [] ->
  (forall s', P s' -> P (m ++ s')) ->
  (forall c rest, starts_with m (c :: rest) = false -> P rest -> P (c :: rest)) ->
  forall s, P s.
Proof.
  intros Hnil Hmatch Hstep s.
  remember (length s) as n eqn:Hn. revert s Hn.
  induction n as [n IH] using lt_wf_ind. intros s ->.
  destruct s as [|c rest]; [exact Hnil |].
  destruct (starts_with m (c :: rest)) eqn:Hsw.
  - apply starts_with_iff in Hsw as (s' & Hs). rewrite Hs.
    apply Hmatch. apply (IH (length s')); [| reflexivity].
    rewrite Hs, length_app. destruct m; [contradiction | simpl; lia].
  - apply Hstep; [exact Hsw |]. apply (IH (length rest)); simpl; [lia | reflexivity].
Qed.

Lemma split_scan_skip (pre : js_string) cur s :
  split_scan m (length pre) cur (pre ++ s) = split_scan m 0 cur s.
Proof. induction pre as [|a pre IH]; simpl; [reflexivity | exact IH]. Qed.

Lemma split_scan_match cur s' :
  split_scan m 0 cur (m ++ s') = rev cur :: split_scan m 0 [] s'.
Proof.
  destruct m as [|a mt] eqn:Hm; [contradiction |].
  change ((a :: mt) ++ s') with (a :: (mt ++ s')).
  cbn [split_scan].
  assert (Hsw : starts_with (a :: mt) (a :: mt ++ s') = true).
  { apply starts_with_iff. now exists s'. }
  rewrite Hsw. f_equal.
  replace (length (a :: mt) - 1) with (length mt) by (simpl; lia).
  rewrite <- Hm. apply split_scan_skip.
Qed.

Lemma split_scan_nomatch cur c rest :
  starts_with m (c :: rest) = false ->
  split_scan m 0 cur (c :: rest) = split_scan m 0 (c :: cur) rest.
Proof. intros H. cbn [split_scan]. now rewrite H. Qed.

Lemma split_scan_acc s : forall cur,
  split_scan m 0 cur s =
  match split_scan m 0 [] s with
  | h :: t => (rev cur ++ h) :: t
  | [] => [rev cur]
  end.
Proof.
  induction s as [| s' _ | c rest Hsw IH] using scan_ind; intros cur.
  - simpl. now rewrite app_nil_r.
  - rewrite !split_scan_match. simpl. now rewrite app_nil_r.
  - rewrite !split_scan_nomatch by assumption.
    rewrite (IH (c :: cur)), (IH [c]).
    destruct (split_scan m 0 [] rest) as [|h t]; simpl.
    + reflexivity.
    + now rewrite <- app_assoc.
Qed.

(** The three equations that determine [split]. *)
Lemma split_nil : split m [] = [[]].
Proof. reflexivity. Qed.

Lemma split_match s' : split m (m ++ s') = [] :: split m s'.
Proof. unfold split. now rewrite split_scan_match. Qed.

Lemma split_nomatch c rest :
  starts_with m (c :: rest) = false ->
  split m (c :: rest) =
  match split m rest with
  | h :: t => (c :: h) :: t
  | [] => [[c]]
  end.
Proof.
  intros H. unfold split. rewrite split_scan_nomatch by assumption.
  now rewrite split_scan_acc.
Qed.

Lemma match_scan_skip (pre : js_string) s :
  match_scan m (length pre) (pre ++ s) = match_scan m 0 s.
Proof. induction pre as [|a pre IH]; simpl; [reflexivity | exact IH]. Qed.

Lemma match_count_match s' : match_count m (m ++ s') = S (match_count m s').
Proof.
  unfold match_count.
  destruct m as [|a mt] eqn:Hm; [contradiction |].
  change ((a :: mt) ++ s') with (a :: (mt ++ s')).
  cbn [match_scan].
  assert (Hsw : starts_with (a :: mt) (a :: mt ++ s') = true).
  { apply starts_with_iff. now exists s'. }
  rewrite Hsw. f_equal.
  replace (length (a :: mt) - 1) with (length mt) by (simpl; lia).
  rewrite <- Hm. apply match_scan_skip.
Qed.

Lemma match_count_nomatch c rest :
  starts_with m (c :: rest) = false ->
  match_count m (c :: rest) = match_count m rest.
Proof. intros H. unfold match_count. cbn [match_scan]. now rewrite H. Qed.

(** One fragment more than there are matches. *)
Lemma split_length s : length (split m s) = S (match_count m s).
Proof.
  induction s as [| s' IH | c rest Hsw IH] using scan_ind.
  - reflexivity.
  - rewrite split_match, match_count_match. simpl. now rewrite IH.
  - rewrite split_nomatch, match_count_nomatch by assumption.
    destruct (split m rest); simpl in *; [discriminate | exact IH].
Qed.

(** There is no match exactly when the marker does not occur. *)
Lemma match_count_zero s : match_count m s = 0 <-> includes m s = false.
Proof.
  induction s as [| s' IH | c rest Hsw IH] using scan_ind.
  - simpl. rewrite starts_with_nil. tauto.
  - rewrite match_count_match. split; [discriminate |].
    intros H. assert (Hin : includes m (m ++ s') = true).
    { apply includes_iff. now exists [], s'. }
    congruence.
  - rewrite match_count_nomatch by assumption.
    cbn [includes]. now rewrite Hsw.
Qed.

Lemma split_not_nil s : split m s <> [].
Proof.
  intros H. pose proof (split_length s) as L. rewrite H in L. discriminate.
Qed.

Lemma join_cons p parts :
  parts <> [] -> join m (p :: parts) = p ++ m ++ join m parts.
Proof. destruct parts; [contradiction | reflexivity]. Qed.

Lemma join_cons_head c h t : join m ((c :: h) :: t) = c :: join m (h :: t).
Proof. destruct t; reflexivity. Qed.

Lemma join_head_prefix h t : exists x, join m (h :: t) = h ++ x.
Proof.
  destruct t.
  - exists []. simpl. now rewrite app_nil_r.
  - eexists. reflexivity.
Qed.

Lemma join_snoc parts p :
  parts <> [] -> join m (parts ++ [p]) = join m parts ++ m ++ p.
Proof.
  induction parts as [|a parts IH]; [contradiction |]. intros _.
  destruct parts as [|b parts].
  - reflexivity.
  - change ((a :: b :: parts) ++ [p]) with (a :: ((b :: parts) ++ [p])).
    rewrite join_cons by (destruct parts; discriminate).
    rewrite IH by discriminate.
    rewrite (join_cons a (b :: parts)) by discriminate.
    now rewrite <- !app_assoc.
Qed.

(** Joining the fragments with the marker gives the text back. *)
Lemma join_split s : join m (split m s) = s.
Proof.
  induction s as [| s' IH | c rest Hsw IH] using scan_ind.
  - reflexivity.
  - rewrite split_match, join_cons by apply split_not_nil.
    now rewrite IH.
  - rewrite split_nomatch by assumption.
    pose proof (split_not_nil rest) as Hne.
    destruct (split m rest) as [|h t]; [contradiction |].
    rewrite join_cons_head. f_equal. exact IH.
Qed.

(** No fragment contains the marker. *)
Lemma split_marker_free s :
  Forall (fun p => includes m p = false) (split m s).
Proof.
  induction s as [| s' IH | c rest Hsw IH] using scan_ind.
  - constructor; [| constructor]. simpl. now rewrite starts_with_nil.
  - rewrite split_match. constructor; [| exact IH].
    simpl. now rewrite starts_with_nil.
  - rewrite split_nomatch by assumption.
    pose proof (split_not_nil rest) as Hne.
    pose proof (join_split rest) as Hj.
    destruct (split m rest) as [|h t]; [contradiction |].
    pose proof (List.Forall_inv IH) as Hh. simpl in Hh.
    pose proof (List.Forall_inv_tail IH) as Ht.
    constructor; [| exact Ht].
    simpl. rewrite Hh, orb_false_r.
    destruct (starts_with m (c :: h)) eqn:Hch; [| reflexivity].
    apply starts_with_iff in Hch as (x & Hx).
    destruct (join_head_prefix h t) as (y & Hy).
    assert (Hsw' : starts_with m (c :: rest) = true).
    { apply starts_with_iff. exists (x ++ y).
      rewrite <- Hj, Hy, app_assoc, <- Hx. reflexivity. }
    congruence.
Qed.

End SplitFacts.

(** ** The content renderer *)

Section RendererFacts.

Import JsString Renderer.

Lemma CODE_nonempty : CODE <> [].
Proof. discriminate. Qed.

(** On a non-empty string the renderer returns the container of the
    mapped parts. *)
Lemma parseQuestionContent_string (s : js_string) :
  s <> [] ->
  parseQuestionContent (VString s)
  = Returns (RContainer (imap render_part (split CODE s))).
Proof. destruct s; [contradiction | reflexivity]. Qed.

Lemma segments_unfold (s : js_string) :
  segments s = flat_map child_segments (imap render_part (split CODE s)).
Proof. destruct s; reflexivity. Qed.

Lemma flat_map_imap {X Y Z : Type} (g : Y -> list Z) (f : nat -> X -> Y)
      (l : list X) :
  flat_map g (imap f l) = concat (imap (fun i x => g (f i x)) l).
Proof.
  revert f. induction l as [|x l IH]; intros f; simpl; [reflexivity |].
  f_equal. apply IH.
Qed.

(** What one fragment contributes to the output. *)
Lemma child_segments_render_part (i : nat) (part : js_string) :
  child_segments (render_part i part)
  = if Nat.even i
    then match trim part with
         | [] => []
         | _ :: _ => [Segment prose (trim part)]
         end
    else [Segment code (trim part)].
Proof.
  unfold render_part. rewrite <- Nat.negb_even.
  destruct (Nat.even i); simpl; [| reflexivity].
  destruct (trim part); reflexivity.
Qed.

Lemma in_segments (s : js_string) (seg : segment) :
  In seg (segments s) <->
  exists i part, split CODE s !! i = Some part /\
                 In seg (child_segments (render_part i part)).
Proof.
  rewrite segments_unfold, in_flat_map. split.
  - intros (c & Hc & Hseg).
    apply list_elem_of_In, list_elem_of_lookup in Hc as (i & Hi).
    rewrite list_lookup_imap in Hi.
    destruct (split CODE s !! i) as [part|] eqn:Hp; [| discriminate].
    injection Hi as <-. eauto.
  - intros (i & part & Hp & Hseg). exists (render_part i part). split; [| exact Hseg].
    apply list_elem_of_In, list_elem_of_lookup. exists i.
    rewrite list_lookup_imap, Hp. reflexivity.
Qed.

End RendererFacts.

Section RendererTheorems.

Import JsString Renderer.

(** C1.  For every input string the renderer splits the text at the CODE
    marker (joining the fragments with the marker gives the text back,
    and no fragment contains the marker) and classifies the fragments by
    their position: the output lists, in the order of the fragments, a
    prose segment for a fragment at an even index and a code segment for
    a fragment at an odd index, each with the trimmed fragment as its
    content.  The text intro-CODE-x=1-CODE-outro of the specification
    yields prose intro, code x=1, prose outro. *)
Theorem C1_segmentation_by_position (text : js_string) :
  let parts := split CODE text in
  join CODE parts = text /\
  Forall (fun p => includes CODE p = false) parts /\
  segments text =
    concat (imap (fun i part =>
                    if Nat.even i
                    then match trim part with
                         | [] => []
                         | _ :: _ => [Segment prose (trim part)]
                         end
                    else [Segment code (trim part)]) parts) /\
  segments parity_text
  = [Segment prose (js "intro"); Segment code (js "x=1");
     Segment prose (js "outro")].
Proof.
  cbv zeta. split; [| split; [| split]].
  - apply join_split, CODE_nonempty.
  - apply split_marker_free, CODE_nonempty.
  - rewrite segments_unfold, flat_map_imap.
    f_equal. apply imap_ext. intros i part _.
    apply child_segments_render_part.
  - vm_compute. reflexivity.
Qed.

(** C2, as the code has it.  Every rendered segment is the trimmed text
    of a fragment (no white space at either end), prose for an even
    index and code for an odd one; a prose fragment that trims to empty
    is dropped, so no prose segment is empty; a code fragment is always
    rendered, also when it trims to empty. *)
Theorem C2_trimmed_and_empty_prose_dropped (text : js_string) :
  (forall seg, In seg (segments text) ->
     exists i part,
       split CODE text !! i = Some part /\
       seg_content seg = trim part /\
       trimmed (seg_content seg) /\
       seg_kind seg = (if Nat.even i then prose else code) /\
       (seg_kind seg = prose -> seg_content seg <> [])) /\
  (forall i part, split CODE text !! i = Some part -> Nat.even i = true ->
     trim part <> [] -> In (Segment prose (trim part)) (segments text)) /\
  (forall i part, split CODE text !! i = Some part -> Nat.odd i = true ->
     In (Segment code (trim part)) (segments text)).
Proof.
  split; [| split].
  - intros seg Hin. apply in_segments in Hin as (i & part & Hp & Hseg).
    exists i, part. rewrite child_segments_render_part in Hseg.
    destruct (Nat.even i).
    + destruct (trim part) as [|c t] eqn:Ht; [destruct Hseg |].
      destruct Hseg as [<- | []]. simpl. rewrite <- Ht.
      split; [exact Hp |]. split; [reflexivity |].
      split; [apply trim_trimmed |]. split; [reflexivity |].
      intros _. rewrite Ht. discriminate.
    + destruct Hseg as [<- | []]. simpl.
      split; [exact Hp |]. split; [reflexivity |].
      split; [apply trim_trimmed |]. split; [reflexivity | discriminate].
  - intros i part Hp Hev Hne. apply in_segments. exists i, part.
    split; [exact Hp |]. rewrite child_segments_render_part, Hev.
    destruct (trim part); [contradiction | now left].
  - intros i part Hp Hodd. apply in_segments. exists i, part.
    split; [exact Hp |]. rewrite child_segments_render_part.
    rewrite <- Nat.negb_odd, Hodd. now left.
Qed.

Lemma C2_trimmed_and_empty_prose_dropped_witness :
  In (Segment prose (js "a")) (segments (js " a " ++ CODE ++ js " ")) /\
  (exists i part,
     split CODE (js " a " ++ CODE ++ js " ") !! i = Some part /\
     seg_content (Segment prose (js "a")) = trim part /\
     trimmed (seg_content (Segment prose (js "a"))) /\
     seg_kind (Segment prose (js "a")) = (if Nat.even i then prose else code) /\
     (seg_kind (Segment prose (js "a")) = prose ->
      seg_content (Segment prose (js "a")) <> [])).
Proof.
  assert (H : In (Segment prose (js "a")) (segments (js " a " ++ CODE ++ js " "))).
  { vm_compute. left. reflexivity. }
  split; [exact H |].
  exact (proj1 (C2_trimmed_and_empty_prose_dropped (js " a " ++ CODE ++ js " "))
               (Segment prose (js "a")) H).
Defined.

(** C2 fails as stated: a code fragment that trims to empty is not
    dropped.  In the text a-CODE-space-CODE-b the fragment between the
    markers is one space; it is rendered as a code block without content. *)
Lemma C2_empty_code_segment_rendered :
  split CODE empty_code_text !! 1 = Some (js " ") /\
  trim (js " ") = [] /\
  parseQuestionContent (VString empty_code_text)
  = Returns (RContainer [ProseDiv 0 (js "a"); CodeBlock 1 [];
                         ProseDiv 2 (js "b")]) /\
  In (Segment code []) (segments empty_code_text).
Proof. vm_compute. repeat split. right. left. reflexivity. Qed.

(** C7.  When the text holds an odd number of CODE markers (counted as
    the regular expression finds them, from the left and without
    overlap), rendering does not fail: it returns the container, and the
    fragment behind the last marker is rendered last, as a code block. *)
Theorem C7_unclosed_code_block (text : js_string) :
  Nat.odd (match_count CODE text) = true ->
  exists children before trailing,
    parseQuestionContent (VString text) = Returns (RContainer children) /\
    text = before ++ CODE ++ trailing /\
    includes CODE trailing = false /\
    last (split CODE text) = Some trailing /\
    last children = Some (CodeBlock (match_count CODE text) (trim trailing)) /\
    last (segments text) = Some (Segment code (trim trailing)).
Proof.
  intros Hodd.
  pose proof (split_length CODE CODE_nonempty text) as Hlen.
  pose proof (join_split CODE CODE_nonempty text) as Hjoin.
  pose proof (split_marker_free CODE CODE_nonempty text) as Hfree.
  assert (Hpos : 1 <= match_count CODE text).
  { destruct (match_count CODE text); [discriminate | lia]. }
  assert (Htext : text <> []).
  { intros ->. vm_compute in Hpos. lia. }
  destruct (split CODE text) as [|p parts] eqn:Hsplit using rev_ind;
    [discriminate |].
  clear IHparts. rename p into trailing, parts into init.
  rewrite length_app in Hlen. simpl in Hlen.
  assert (Hinit : init <> []).
  { intros ->. simpl in Hlen. lia. }
  exists (imap render_part (init ++ [trailing])), (join CODE init), trailing.
  assert (Hlast : render_part (length init) trailing
                  = CodeBlock (match_count CODE text) (trim trailing)).
  { unfold render_part. replace (length init) with (match_count CODE text) by lia.
    now rewrite Hodd. }
  repeat split.
  - rewrite parseQuestionContent_string by assumption. now rewrite Hsplit.
  - rewrite <- Hjoin. apply join_snoc; assumption.
  - rewrite Forall_app in Hfree. destruct Hfree as [_ Hf].
    now apply List.Forall_inv in Hf.
  - apply last_snoc.
  - rewrite imap_app. simpl. rewrite last_snoc, Nat.add_0_r. now f_equal.
  - rewrite segments_unfold, Hsplit, imap_app, flat_map_app. simpl.
    rewrite Nat.add_0_r, Hlast. simpl. apply last_snoc.
Qed.

Lemma C7_unclosed_code_block_witness :
  Nat.odd (match_count CODE unclosed_text) = true /\
  exists children before trailing,
    parseQuestionContent (VString unclosed_text)
    = Returns (RContainer children) /\
    unclosed_text = before ++ CODE ++ trailing /\
    includes CODE trailing = false /\
    last (split CODE unclosed_text) = Some trailing /\
    last children
    = Some (CodeBlock (match_count CODE unclosed_text) (trim trailing)) /\
    last (segments unclosed_text) = Some (Segment code (trim trailing)).
Proof.
  split; [reflexivity |].
  apply (C7_unclosed_code_block unclosed_text). reflexivity.
Defined.

(** C9.  For a falsy argument, the empty string among them, the renderer
    returns null and not a container; for a non-empty string it returns
    the container, which has one child per fragment (at least one) and
    may hold nothing visible, as for a text of one space. *)
Theorem C9_null_for_falsy_text (text : js_value) :
  (ToBoolean text = false -> parseQuestionContent text = Returns RNull) /\
  (forall s, text = VString s -> s <> [] ->
     exists children,
       parseQuestionContent text = Returns (RContainer children) /\
       children = imap render_part (split CODE s) /\
       1 <= length children) /\
  parseQuestionContent (VString []) = Returns RNull /\
  parseQuestionContent (VString (js " ")) = Returns (RContainer [EmptyText]).
Proof.
  split; [| split; [| split]].
  - intros H. unfold parseQuestionContent. now rewrite H.
  - intros s -> Hs. eexists. split; [| split; [reflexivity |]].
    + now apply parseQuestionContent_string.
    + rewrite length_imap, (split_length CODE CODE_nonempty). lia.
  - reflexivity.
  - reflexivity.
Qed.

Lemma C9_null_for_falsy_text_witness :
  (ToBoolean VUndefined = false /\
   parseQuestionContent VUndefined = Returns RNull) /\
  (js "x" <> [] /\
   exists children,
     parseQuestionContent (VString (js "x")) = Returns (RContainer children) /\
     children = imap render_part (split CODE (js "x")) /\
     1 <= length children).
Proof.
  split.
  - split; [reflexivity |].
    apply (proj1 (C9_null_for_falsy_text VUndefined)). reflexivity.
  - assert (H : js "x" <> []) by discriminate.
    split; [exact H |].
    exact (proj1 (proj2 (C9_null_for_falsy_text (VString (js "x"))))
                 (js "x") eq_refl H).
Defined.

End RendererTheorems.

(** ** The calendar behind [toISOString] *)

Section DateFacts.

Import JsDate.
Local Open Scope Z_scope.

Lemma all_from_spec (ok : Z -> bool) (n : nat) (z k : Z) :
  all_from ok n z = true -> z <= k < z + Z.of_nat n -> ok k = true.
Proof.
  revert z. induction n as [|n IH]; intros z H Hk; [lia |].
  cbn [all_from] in H. apply andb_true_iff in H as [Hz Hrest].
  destruct (Z.eq_dec k z) as [-> | Hne]; [exact Hz |].
  apply (IH (z + 1)); [exact Hrest | lia].
Qed.

(** Every year of an era and every day of a year pass their checks. *)
Lemma years_checked : all_from year_ok 400 0 = true.
Proof. vm_compute. reflexivity. Qed.

Lemma days_of_year_checked : all_from day_of_year_ok 366 0 = true.
Proof. vm_compute. reflexivity. Qed.

Lemma year_ok_all (yoe : Z) : 0 <= yoe < 400 -> year_ok yoe = true.
Proof.
  intros H. apply (all_from_spec year_ok 400 0 yoe years_checked). lia.
Qed.

Lemma day_of_year_ok_all (doy : Z) :
  0 <= doy < 366 -> day_of_year_ok doy = true.
Proof.
  intros H.
  apply (all_from_spec day_of_year_ok 366 0 doy days_of_year_checked). lia.
Qed.

(** [year_of_era] never decreases from one day to the next. *)
Lemma year_of_era_step (doe : Z) :
  0 <= doe < 146096 -> year_of_era doe <= year_of_era (doe + 1).
Proof.
  intros H. unfold year_of_era. apply Z.div_le_mono; [lia |].
  destruct (Z.eq_dec (doe + 1) 146096) as [E | E].
  - replace doe with 146095 by lia. vm_compute. discriminate.
  - rewrite (Z.div_small doe 146096), (Z.div_small (doe + 1) 146096) by lia.
    Z.to_euclidean_division_equations. lia.
Qed.

Lemma year_of_era_mono (a b : Z) :
  0 <= a <= b -> b < 146097 -> year_of_era a <= year_of_era b.
Proof.
  intros [Ha Hab] Hb.
  replace b with (a + Z.of_nat (Z.to_nat (b - a))) in * by lia.
  induction (Z.to_nat (b - a)) as [|n IH].
  - rewrite Z.add_0_r. lia.
  - rewrite Nat2Z.inj_succ in *.
    etransitivity; [apply IH; lia |].
    replace (a + Z.succ (Z.of_nat n)) with (a + Z.of_nat n + 1) by lia.
    apply year_of_era_step. lia.
Qed.

Lemma year_start_step (yoe : Z) :
  365 <= year_start (yoe + 1) - year_start yoe <= 366.
Proof. unfold year_start. Z.to_euclidean_division_equations. lia. Qed.

Lemma year_start_mono (a b : Z) : a <= b -> year_start a <= year_start b.
Proof. unfold year_start. intros H. Z.to_euclidean_division_equations. lia. Qed.

(** A day of an era lies in the year that [year_of_era] gives, as one of
    its at most 366 days. *)
Lemma year_of_era_spec (doe : Z) :
  0 <= doe < 146097 ->
  0 <= year_of_era doe < 400 /\
  0 <= doe - year_start (year_of_era doe) < 366.
Proof.
  intros H.
  assert (H0 : year_of_era 0 = 0) by reflexivity.
  assert (H1 : year_of_era 146096 = 399) by reflexivity.
  pose proof (year_of_era_mono 0 doe ltac:(lia) ltac:(lia)) as Hlo.
  pose proof (year_of_era_mono doe 146096 ltac:(lia) ltac:(lia)) as Hhi.
  set (y := year_of_era doe) in *.
  assert (Hy : 0 <= y < 400) by lia.
  split; [exact Hy |].
  pose proof (year_start_mono 0 y ltac:(lia)) as Hm0.
  change (year_start 0) with 0 in Hm0.
  pose proof (year_start_mono y 399 ltac:(lia)) as Hm1.
  change (year_start 399) with 145731 in Hm1.
  split.
  - destruct (Z_le_gt_dec (year_start y) doe) as [Hle | Hgt]; [lia |].
    exfalso.
    assert (Hy0 : y <> 0).
    { intros E. rewrite E in Hgt. change (year_start 0) with 0 in Hgt. lia. }
    pose proof (year_ok_all (y - 1) ltac:(lia)) as Hok.
    unfold year_ok in Hok. apply andb_true_iff in Hok as [_ Hend].
    apply Z.eqb_eq in Hend. replace (y - 1 + 1) with y in Hend by lia.
    pose proof (year_of_era_mono doe (year_start y - 1) ltac:(lia) ltac:(lia)).
    unfold y in *. lia.
  - destruct (Z.eq_dec y 399) as [E | E].
    + rewrite E. change (year_start 399) with 145731. lia.
    + pose proof (year_start_step y) as Hstep.
      destruct (Z_lt_le_dec doe (year_start (y + 1))) as [Hlt | Hge]; [lia |].
      exfalso.
      pose proof (year_ok_all (y + 1) ltac:(lia)) as Hok.
      unfold year_ok in Hok. apply andb_true_iff in Hok as [Hbegin _].
      apply Z.eqb_eq in Hbegin.
      pose proof (year_start_mono 0 (y + 1) ltac:(lia)) as Hm.
      change (year_start 0) with 0 in Hm.
      pose proof (year_of_era_mono (year_start (y + 1)) doe ltac:(lia) ltac:(lia)).
      unfold y in *. lia.
Qed.

Lemma era_date_facts (doe : Z) :
  0 <= doe < 146097 ->
  let '(y, m, d) := era_date doe in
  0 <= y <= 400 /\ 1 <= m <= 12 /\ 1 <= d <= 31 /\
  (doe <= 146036 -> y <= 399) /\ (146036 < doe -> y = 400) /\
  days_from_civil y m d = doe - 719468.
Proof.
  intros H. unfold era_date.
  destruct (year_of_era_spec doe H) as (Hy & Hdoy).
  set (yoe := year_of_era doe) in *.
  set (doy := doe - year_start yoe) in *.
  pose proof (day_of_year_ok_all doy Hdoy) as Hok.
  unfold day_of_year_ok in Hok.
  set (mp := march_month doy) in *.
  set (d := doy - month_start mp + 1) in *.
  repeat (apply andb_true_iff in Hok as [Hok ?]).
  assert (Hmp : 0 <= mp <= 11) by lia.
  assert (Hd : 1 <= d <= 31) by lia.
  assert (Hjan : doy < 306 -> mp < 10).
  { intros Hl. apply Z.ltb_lt in Hl. rewrite Hl in *. lia. }
  assert (Hmar : 306 <= doy -> 10 <= mp).
  { intros Hl. apply Z.ltb_ge in Hl. rewrite Hl in *. lia. }
  assert (Hend : year_start 399 = 145731) by reflexivity.
  assert (Hdoy_def : doy = doe - year_start yoe) by reflexivity.
  pose proof (year_start_step yoe) as Hstep.
  assert (Hlast : 146036 < doe -> yoe = 399 /\ 306 <= doy).
  { intros Hl.
    assert (E : yoe = 399).
    { destruct (Z.eq_dec yoe 399) as [E | E]; [exact E | exfalso].
      pose proof (year_start_mono (yoe + 1) 399 ltac:(lia)). lia. }
    split; [exact E |]. rewrite E in Hdoy_def. lia. }
  assert (Hbefore : doe <= 146036 -> yoe = 399 -> doy < 306).
  { intros Hl E. rewrite E in Hdoy_def. lia. }
  assert (Hback : forall m,
             m = (if mp <? 10 then mp + 3 else mp - 9) ->
             days_from_civil (yoe + (if m <=? 2 then 1 else 0)) m d
             = doe - 719468).
  { intros m Hm. unfold days_from_civil.
    replace (yoe + (if m <=? 2 then 1 else 0) - (if m <=? 2 then 1 else 0))
      with yoe by lia.
    rewrite (Z.div_small yoe 400), (Z.mod_small yoe 400) by lia.
    assert (Hmp' : (if 2 <? m then m - 3 else m + 9) = mp).
    { subst m. destruct (mp <? 10) eqn:E.
      - apply Z.ltb_lt in E.
        assert (E2 : (2 <? mp + 3) = true) by (apply Z.ltb_lt; lia).
        rewrite E2. lia.
      - apply Z.ltb_ge in E.
        assert (E2 : (2 <? mp - 9) = false) by (apply Z.ltb_ge; lia).
        rewrite E2. lia. }
    rewrite Hmp'. fold (month_start mp). unfold d, year_start in *. lia. }
  destruct (mp <? 10) eqn:Emp.
  - apply Z.ltb_lt in Emp.
    assert (E2 : (mp + 3 <=? 2) = false) by (apply Z.leb_gt; lia).
    specialize (Hback (mp + 3) eq_refl). rewrite E2 in *.
    split; [lia |]. split; [lia |]. split; [exact Hd |].
    split; [lia |]. split; [| exact Hback].
    intros Hl. destruct (Hlast Hl) as [_ Hd306]. specialize (Hmar Hd306). lia.
  - apply Z.ltb_ge in Emp.
    assert (E2 : (mp - 9 <=? 2) = true) by (apply Z.leb_le; lia).
    specialize (Hback (mp - 9) eq_refl). rewrite E2 in *.
    split; [lia |]. split; [lia |]. split; [exact Hd |].
    split; [| split; [| exact Hback]].
    + intros Hl.
      destruct (Z.eq_dec yoe 399) as [E | E]; [| lia].
      specialize (Hbefore Hl E). specialize (Hjan Hbefore). lia.
    + intros Hl. destruct (Hlast Hl) as [E _]. lia.
Qed.

(** Moving a date by whole eras moves its day number by whole eras. *)
Lemma days_from_civil_era (y m d era : Z) :
  days_from_civil (y + era * 400) m d = days_from_civil y m d + era * 146097.
Proof.
  unfold days_from_civil.
  replace (y + era * 400 - (if m <=? 2 then 1 else 0))
    with (y - (if m <=? 2 then 1 else 0) + era * 400) by lia.
  rewrite Z.div_add, Z.mod_add by lia. lia.
Qed.

Lemma days_from_civil_from_days (days : Z) :
  let '(y, m, d) := civil_from_days days in
  days_from_civil y m d = days /\ 1 <= m <= 12 /\ 1 <= d <= 31.
Proof.
  unfold civil_from_days.
  pose proof (Z.mod_pos_bound (days + 719468) 146097 ltac:(lia)) as Hdoe.
  pose proof (era_date_facts _ Hdoe) as Hf.
  destruct (era_date ((days + 719468) mod 146097)) as [[y m] d].
  destruct Hf as (_ & Hm & Hd & _ & _ & Hback).
  rewrite days_from_civil_era, Hback.
  pose proof (Z.div_mod (days + 719468) 146097 ltac:(lia)). lia.
Qed.

Lemma civil_year_range (days : Z) :
  -719528 <= days <= 2932896 ->
  let '(y, _, _) := civil_from_days days in 0 <= y <= 9999.
Proof.
  intros Hdays. unfold civil_from_days.
  pose proof (Z.mod_pos_bound (days + 719468) 146097 ltac:(lia)) as Hdoe.
  pose proof (era_date_facts _ Hdoe) as Hf.
  pose proof (Z.div_mod (days + 719468) 146097 ltac:(lia)) as Hdm.
  destruct (era_date ((days + 719468) mod 146097)) as [[y m] d].
  destruct Hf as (Hy & _ & _ & Hlow & Hhigh & _).
  assert (-1 <= (days + 719468) / 146097 <= 24) by lia.
  lia.
Qed.

(** The fields of an instant are valid and denote the instant. *)
Lemma fields_of_valid (t : time_value) : valid_fields (fields_of t).
Proof.
  unfold fields_of, valid_fields.
  pose proof (days_from_civil_from_days (t / msPerDay)) as Hc.
  destruct (civil_from_days (t / msPerDay)) as [[y m] d].
  destruct Hc as (_ & Hm & Hd). cbn.
  split; [exact Hm |]. split; [exact Hd |].
  unfold msPerDay. Z.to_euclidean_division_equations. lia.
Qed.

Lemma time_of_fields_of (t : time_value) : time_of (fields_of t) = t.
Proof.
  unfold fields_of, time_of.
  pose proof (days_from_civil_from_days (t / msPerDay)) as Hc.
  destruct (civil_from_days (t / msPerDay)) as [[y m] d].
  destruct Hc as (Hback & _). cbn. rewrite Hback.
  unfold msPerDay.
  pose proof (Z.div_mod t 86400000 ltac:(lia)) as H1.
  set (ms := t mod 86400000) in *.
  pose proof (Z.div_mod ms 1000 ltac:(lia)) as H2.
  pose proof (Z.div_mod (ms / 1000) 60 ltac:(lia)) as H3.
  pose proof (Z.div_mod (ms / 60000) 60 ltac:(lia)) as H4.
  assert (H5 : ms / 60000 = ms / 1000 / 60).
  { rewrite Z.div_div by lia. reflexivity. }
  assert (H6 : ms / 3600000 = ms / 60000 / 60).
  { rewrite Z.div_div by lia. reflexivity. }
  lia.
Qed.

Lemma fields_of_year_range (t : time_value) :
  four_digit_year t -> 0 <= year (fields_of t) <= 9999.
Proof.
  unfold four_digit_year, fields_of. intros Ht.
  assert (Hdays : -719528 <= t / msPerDay <= 2932896).
  { unfold msPerDay. Z.to_euclidean_division_equations. lia. }
  pose proof (civil_year_range _ Hdays) as Hy.
  destruct (civil_from_days (t / msPerDay)) as [[y m] d]. exact Hy.
Qed.

Lemma fields_of_calendar_date (t : time_value) : calendar_date (fields_of t).
Proof.
  unfold calendar_date, fields_of.
  pose proof (days_from_civil_from_days (t / msPerDay)) as Hc.
  destruct (civil_from_days (t / msPerDay)) as [[y m] d] eqn:Hciv.
  destruct Hc as (Hback & _). cbn. now rewrite Hback.
Qed.

(** For an instant with a year of four digits, [toISOString] gives the
    ISO-8601 text of the instant. *)
Lemma toISOString_iso8601 (t : time_value) :
  four_digit_year t -> iso8601_of (toISOString t) t.
Proof.
  intros Ht. exists (fields_of t).
  pose proof (fields_of_year_range t Ht) as Hy.
  split; [exact Hy |]. split; [apply fields_of_valid |].
  split; [apply fields_of_calendar_date |].
  split; [apply time_of_fields_of |].
  unfold toISOString, format_fields, format_year.
  destruct Hy as [Hy1 Hy2].
  apply Z.leb_le in Hy1, Hy2. rewrite Hy1, Hy2. reflexivity.
Qed.

(** The pads are the decimal digits of a number in range. *)
Lemma digit_value (n : Z) : Z.of_N (digit n) - 48 = n mod 10.
Proof.
  unfold digit. pose proof (Z.mod_pos_bound n 10 ltac:(lia)).
  rewrite N2Z.inj_add, Z2N.id by lia. lia.
Qed.

Lemma pad2_value (n : Z) : 0 <= n <= 99 -> decimal_value (pad2 n) = n.
Proof.
  intros H. unfold decimal_value, pad2. cbn [fold_left].
  rewrite !digit_value. Z.to_euclidean_division_equations. lia.
Qed.

Lemma pad3_value (n : Z) : 0 <= n <= 999 -> decimal_value (pad3 n) = n.
Proof.
  intros H. unfold decimal_value, pad3. cbn [fold_left].
  rewrite !digit_value. Z.to_euclidean_division_equations. lia.
Qed.

Lemma pad4_value (n : Z) : 0 <= n <= 9999 -> decimal_value (pad4 n) = n.
Proof.
  intros H. unfold decimal_value, pad4. cbn [fold_left].
  rewrite !digit_value. Z.to_euclidean_division_equations. lia.
Qed.

End DateFacts.

(** ** The performance message *)

Section ResultsTheorems.

Import Results.

Lemma js_ge_finite (q : Q) (k : Z) :
  js_ge (Finite q) k = true <-> (inject_Z k <= q)%Q.
Proof. apply Qle_bool_iff. Qed.

Lemma js_ge_finite_false (q : Q) (k : Z) :
  js_ge (Finite q) k = false <-> (q < inject_Z k)%Q.
Proof.
  simpl. rewrite <- not_true_iff_false, Qle_bool_iff. split.
  - apply Qnot_le_lt.
  - apply Qlt_not_le.
Qed.

Lemma js_ge_false_mono (x : js_number) (k k' : Z) :
  (k <= k')%Z -> js_ge x k = false -> js_ge x k' = false.
Proof.
  intros Hk. destruct x as [| | | q]; try (intros; assumption || reflexivity).
  rewrite !js_ge_finite_false. intros H.
  eapply Qlt_le_trans; [exact H |]. now rewrite <- Zle_Qle.
Qed.

(** C10.  The legacy page and the React screen choose the same message
    for every value of the percentage: excellent from 90 up, good job from
    70 to below 90, not bad from 50 to below 70, keep studying below 50
    (and when the percentage is not a number). *)
Theorem C10_messages_agree (p : js_number) :
  showResults_message p = fst (ResultsScreen_message p) /\
  match p with
  | Finite q =>
      ((90 <= q)%Q -> showResults_message p = excellent) /\
      ((70 <= q)%Q /\ (q < 90)%Q -> showResults_message p = good_job) /\
      ((50 <= q)%Q /\ (q < 70)%Q -> showResults_message p = not_bad) /\
      ((q < 50)%Q -> showResults_message p = keep_studying)
  | PosInfinity => showResults_message p = excellent
  | NegInfinity | NaN => showResults_message p = keep_studying
  end.
Proof.
  split.
  - unfold showResults_message, ResultsScreen_message.
    destruct (js_ge p 90); [reflexivity |].
    destruct (js_ge p 70); [reflexivity |].
    destruct (js_ge p 50); reflexivity.
  - unfold showResults_message.
    destruct p as [| | | q]; try reflexivity.
    split; [| split; [| split]].
    + intros H. apply (js_ge_finite q 90) in H. now rewrite H.
    + intros [H1 H2]. apply (js_ge_finite q 70) in H1.
      apply (js_ge_finite_false q 90) in H2. now rewrite H2, H1.
    + intros [H1 H2]. apply (js_ge_finite q 50) in H1.
      apply (js_ge_finite_false q 70) in H2.
      rewrite (js_ge_false_mono (Finite q) 70 90 ltac:(lia) H2).
      now rewrite H2, H1.
    + intros H. apply (js_ge_finite_false q 50) in H.
      rewrite (js_ge_false_mono (Finite q) 50 90 ltac:(lia) H).
      rewrite (js_ge_false_mono (Finite q) 50 70 ltac:(lia) H).
      now rewrite H.
Qed.

Lemma C10_messages_agree_witness :
  ((70 <= 85)%Q /\ (85 < 90)%Q) /\
  showResults_message (Finite 85) = good_job /\
  fst (ResultsScreen_message (Finite 85)) = good_job.
Proof.
  assert (H : (70 <= 85)%Q /\ (85 < 90)%Q) by (split; reflexivity || discriminate).
  pose proof (C10_messages_agree (Finite 85)) as [Heq (_ & Hgood & _)].
  split; [exact H |]. split; [exact (Hgood H) |].
  rewrite <- Heq. exact (Hgood H).
Defined.

End ResultsTheorems.

(** ** The history log *)

Section HistoryFacts.

Import Results History.

(** [unshift] and the capped [pop], seen from the old log. *)
Lemma capped_cons (e : entry) (h : list entry) :
  (if 20 <? length (e :: h) then removelast (e :: h) else e :: h)
  = e :: (if 20 <=? length h then removelast h else h).
Proof.
  cbn [length]. destruct (20 <=? length h) eqn:Hle.
  - apply Nat.leb_le in Hle.
    assert (Hlt : (20 <? S (length h)) = true) by (apply Nat.ltb_lt; lia).
    rewrite Hlt. destruct h; [simpl in Hle; lia | reflexivity].
  - apply Nat.leb_gt in Hle.
    assert (Hlt : (20 <? S (length h)) = false) by (apply Nat.ltb_ge; lia).
    now rewrite Hlt.
Qed.

Lemma step_save (ls : local_storage) (ev : event) (e : entry) :
  entry_of ev = Some e ->
  step ls ev
  = Some (e :: (if 20 <=? length (read_history ls)
                then removelast (read_history ls) else read_history ls)).
Proof.
  destruct ev; simpl; intros [= <-].
  - unfold saveQuizToHistory. cbv zeta. now rewrite capped_cons.
  - unfold fetchResults. cbv zeta. now rewrite capped_cons.
Qed.

Lemma step_clear (ls : local_storage) : step ls Clear = None.
Proof. reflexivity. Qed.

Lemma run_snoc (evs : list event) (ev : event) :
  run (evs ++ [ev]) = step (run evs) ev.
Proof. unfold run. now rewrite fold_left_app. Qed.

Lemma length_removelast {X : Type} (l : list X) :
  length (removelast l) = pred (length l).
Proof.
  induction l as [|a l IH]; [reflexivity |].
  destruct l; [reflexivity |]. cbn [removelast length] in *. now rewrite IH.
Qed.

Lemma length_capped (h : list entry) :
  length h <= 20 ->
  length (if 20 <=? length h then removelast h else h) <= 19.
Proof.
  intros H. destruct (20 <=? length h) eqn:Hle.
  - rewrite length_removelast. lia.
  - apply Nat.leb_gt in Hle. lia.
Qed.

(** The cap is an invariant of the log. *)
Lemma run_length (evs : list event) : length (read_history (run evs)) <= 20.
Proof.
  induction evs as [|ev evs IH] using rev_ind; [simpl; lia |].
  rewrite run_snoc. destruct (entry_of ev) as [e|] eqn:He.
  - rewrite (step_save _ _ _ He). cbn [read_history length].
    pose proof (length_capped _ IH). lia.
  - destruct ev; try discriminate. simpl. lia.
Qed.

Lemma capped_take (l : list entry) :
  (if 20 <=? length (take 20 l) then removelast (take 20 l) else take 20 l)
  = take 19 l.
Proof.
  destruct (Nat.le_gt_cases 20 (length l)) as [Hl | Hl].
  - rewrite length_take, Nat.min_l by exact Hl. simpl (20 <=? 20).
    cbv iota. apply removelast_firstn. lia.
  - rewrite (take_ge l 20), (take_ge l 19) by lia.
    apply Nat.leb_gt in Hl. now rewrite Hl.
Qed.

(** Without a clearing, the log is the last twenty entries written,
    newest first. *)
Lemma run_saves (evs : list event) :
  Forall (fun ev => ev <> Clear) evs ->
  read_history (run evs) = take 20 (rev (omap entry_of evs)).
Proof.
  induction evs as [|ev evs IH] using rev_ind; intros Hall; [reflexivity |].
  apply Forall_app in Hall as [Hevs Hev].
  apply List.Forall_inv in Hev.
  rewrite run_snoc, omap_app, rev_app_distr.
  destruct ev as [start n1 n2 data | n data |]; [| | contradiction].
  - rewrite (step_save _ (LegacySave start n1 n2 data) _ eq_refl), (IH Hevs).
    cbn [read_history]. rewrite capped_take. reflexivity.
  - rewrite (step_save _ (ReactSave n data) _ eq_refl), (IH Hevs).
    cbn [read_history]. rewrite capped_take. reflexivity.
Qed.

Lemma in_removelast {X : Type} (x : X) (l : list X) :
  In x (removelast l) -> In x l.
Proof.
  induction l as [|a l IH]; [intros [] |].
  destruct l; [intros [] |].
  cbn [removelast]. intros [-> | H]; [now left | right; now apply IH].
Qed.

(** Every entry of the log was written by one of the saves. *)
Lemma run_entries (evs : list event) (e : entry) :
  In e (read_history (run evs)) ->
  exists ev, In ev evs /\ entry_of ev = Some e.
Proof.
  induction evs as [|ev evs IH] using rev_ind; [intros [] |].
  rewrite run_snoc. destruct (entry_of ev) as [e'|] eqn:He.
  - rewrite (step_save _ _ _ He). cbn [read_history].
    intros [<- | Hin].
    + exists ev. split; [apply in_or_app; right; now left | exact He].
    + assert (Hold : In e (read_history (run evs))).
      { destruct (20 <=? length (read_history (run evs)));
          [now apply in_removelast | exact Hin]. }
      destruct (IH Hold) as (ev0 & Hev0 & He0). exists ev0.
      split; [apply in_or_app; now left | exact He0].
  - destruct ev; try discriminate. intros [].
Qed.

Lemma saveQuizToHistory_entry_fields start now1 now2 data :
  let e := saveQuizToHistory_entry start now1 now2 data in
  dom e = entry_fields /\
  e !! "date" = Some (VString (JsDate.toISOString now2)) /\
  e !! "score" = Some (VNumber (Finite (score data))) /\
  e !! "total" = Some (VNumber (Finite (total data))) /\
  e !! "percentage" = Some (VNumber (Finite (percentage data))) /\
  exists d, e !! "duration" = Some (VString d).
Proof.
  cbv zeta. unfold saveQuizToHistory_entry, entry_fields. cbv zeta.
  split; [| repeat split; try reflexivity; eexists; reflexivity].
  rewrite !dom_insert_L, dom_singleton_L. set_solver.
Qed.

Lemma fetchResults_entry_fields now data :
  let e := fetchResults_entry now data in
  dom e = entry_fields /\
  e !! "date" = Some (VString (JsDate.toISOString now)) /\
  e !! "score" = Some (VNumber (Finite (score data))) /\
  e !! "total" = Some (VNumber (Finite (total data))) /\
  e !! "percentage" = Some (VNumber (Finite (percentage data))) /\
  e !! "duration" = Some (VString (js "N/A")).
Proof.
  cbv zeta. unfold fetchResults_entry, entry_fields.
  split; [| repeat split; reflexivity].
  rewrite !dom_insert_L, dom_singleton_L. set_solver.
Qed.

(** The duration of the legacy page: 65.4 seconds are 1m 5s, 65.5 seconds
    round up to 1m 6s, and without a start time the duration is 0m 0s. *)
Example saveQuizToHistory_duration :
  saveQuizToHistory_entry (Some 1000%Z) 66400%Z JsDate.sample_now one_of_two
    !! "duration" = Some (VString (js "1m 5s")) /\
  saveQuizToHistory_entry (Some 1000%Z) 66500%Z JsDate.sample_now one_of_two
    !! "duration" = Some (VString (js "1m 6s")) /\
  saveQuizToHistory_entry None 66500%Z JsDate.sample_now one_of_two
    !! "duration" = Some (VString (js "0m 0s")).
Proof. repeat split. Qed.

(** Twenty-one saves on an empty storage leave twenty entries: the first
    one written is gone, the last one is at the front. *)
Example eviction_after_21_saves :
  read_history
    (run (map (fun n => ReactSave (Z.of_nat n) one_of_two) (seq 1 21)))
  = map (fun n => fetchResults_entry (Z.of_nat n) one_of_two) (rev (seq 2 20)).
Proof.
  rewrite run_saves.
  - reflexivity.
  - apply Forall_forall. intros ev Hin.
    apply list_elem_of_In, in_map_iff in Hin as (n & <- & _). discriminate.
Qed.

End HistoryFacts.

Section HistoryTheorems.

Import Results History.

(** C5.  In every log that the saves (and the clearing) produce from an
    empty browser storage there are at most 20 entries.  A save puts its
    entry at the front; the entries behind it are the old log, without
    its last (oldest) entry when the old log was full.  Without a
    clearing in between, the log is the last 20 entries written, newest
    first. *)
Theorem C5_history_capped_newest_first (evs : list event) :
  length (read_history (run evs)) <= 20 /\
  (forall ev e, entry_of ev = Some e ->
     read_history (run (evs ++ [ev]))
     = e :: (if 20 <=? length (read_history (run evs))
             then removelast (read_history (run evs))
             else read_history (run evs))) /\
  (Forall (fun ev => ev <> Clear) evs ->
     read_history (run evs) = take 20 (rev (omap entry_of evs))).
Proof.
  split; [apply run_length | split].
  - intros ev e He. now rewrite run_snoc, (step_save _ _ _ He).
  - apply run_saves.
Qed.

Lemma C5_history_capped_newest_first_witness :
  (entry_of (ReactSave 2000%Z one_of_two)
   = Some (fetchResults_entry 2000%Z one_of_two) /\
   read_history (run ([ReactSave 1000%Z one_of_two]
                      ++ [ReactSave 2000%Z one_of_two]))
   = fetchResults_entry 2000%Z one_of_two
       :: (if 20 <=? length (read_history (run [ReactSave 1000%Z one_of_two]))
           then removelast (read_history (run [ReactSave 1000%Z one_of_two]))
           else read_history (run [ReactSave 1000%Z one_of_two]))) /\
  (Forall (fun ev => ev <> Clear) [ReactSave 1000%Z one_of_two] /\
   read_history (run [ReactSave 1000%Z one_of_two])
   = take 20 (rev (omap entry_of [ReactSave 1000%Z one_of_two]))).
Proof.
  pose proof (C5_history_capped_newest_first [ReactSave 1000%Z one_of_two])
    as (_ & Hsave & Hall).
  assert (Hno : Forall (fun ev => ev <> Clear) [ReactSave 1000%Z one_of_two]).
  { constructor; [discriminate | constructor]. }
  split.
  - split; [reflexivity |].
    exact (Hsave (ReactSave 2000%Z one_of_two)
                 (fetchResults_entry 2000%Z one_of_two) eq_refl).
  - split; [exact Hno | exact (Hall Hno)].
Defined.

(** C8.  The entry that a save writes, on the legacy page and in the
    React screen alike, is put at the front of the stored log and has
    exactly the fields date, score, total, percentage and duration: the
    date is [toISOString] of the clock at the save, which for a year of
    four digits is the ISO-8601 text of that instant; score, total and
    percentage are those of the results payload; the duration is a
    string.  Every entry found in the log has these five fields. *)
Theorem C8_history_entry_fields (quizStartTime : option Z)
        (now_elapsed now_date : Z) (data : results_payload)
        (ls : local_storage) :
  (exists rest,
     saveQuizToHistory quizStartTime now_elapsed now_date data ls
     = Some (saveQuizToHistory_entry quizStartTime now_elapsed now_date data
               :: rest)) /\
  (exists rest,
     fetchResults now_date data ls
     = Some (fetchResults_entry now_date data :: rest)) /\
  (forall e : entry,
     e = saveQuizToHistory_entry quizStartTime now_elapsed now_date data \/
     e = fetchResults_entry now_date data ->
     dom e = entry_fields /\
     e !! "date" = Some (VString (JsDate.toISOString now_date)) /\
     e !! "score" = Some (VNumber (Finite (score data))) /\
     e !! "total" = Some (VNumber (Finite (total data))) /\
     e !! "percentage" = Some (VNumber (Finite (percentage data))) /\
     exists d, e !! "duration" = Some (VString d)) /\
  (JsDate.four_digit_year now_date ->
     JsDate.iso8601_of (JsDate.toISOString now_date) now_date) /\
  (forall evs (e : entry),
     In e (read_history (run evs)) -> dom e = entry_fields).
Proof.
  split; [| split; [| split; [| split]]].
  - eexists.
    apply (step_save ls (LegacySave quizStartTime now_elapsed now_date data)).
    reflexivity.
  - eexists. apply (step_save ls (ReactSave now_date data)). reflexivity.
  - intros e [-> | ->].
    + apply saveQuizToHistory_entry_fields.
    + destruct (fetchResults_entry_fields now_date data)
        as (H1 & H2 & H3 & H4 & H5 & H6).
      repeat split; try assumption. eexists; exact H6.
  - apply toISOString_iso8601.
  - intros evs e Hin.
    destruct (run_entries evs e Hin) as (ev & _ & He).
    destruct ev as [s n1 n2 d | n d |]; simpl in He; try discriminate;
      injection He as <-.
    + apply saveQuizToHistory_entry_fields.
    + apply fetchResults_entry_fields.
Qed.

Lemma C8_history_entry_fields_witness :
  (JsDate.four_digit_year JsDate.sample_now /\
   JsDate.iso8601_of (JsDate.toISOString JsDate.sample_now) JsDate.sample_now) /\
  (fetchResults_entry JsDate.sample_now one_of_two
   = saveQuizToHistory_entry None JsDate.sample_now JsDate.sample_now one_of_two \/
   fetchResults_entry JsDate.sample_now one_of_two
   = fetchResults_entry JsDate.sample_now one_of_two) /\
  dom (fetchResults_entry JsDate.sample_now one_of_two) = entry_fields /\
  fetchResults_entry JsDate.sample_now one_of_two !! "date"
  = Some (VString (js "2023-11-14T22:13:20.000Z")).
Proof.
  pose proof (C8_history_entry_fields None JsDate.sample_now JsDate.sample_now
                one_of_two None) as (_ & _ & Hfields & Hiso & _).
  assert (Hy : JsDate.four_digit_year JsDate.sample_now).
  { unfold JsDate.four_digit_year, JsDate.sample_now. lia. }
  assert (He : fetchResults_entry JsDate.sample_now one_of_two
               = saveQuizToHistory_entry None JsDate.sample_now
                   JsDate.sample_now one_of_two \/
               fetchResults_entry JsDate.sample_now one_of_two
               = fetchResults_entry JsDate.sample_now one_of_two).
  { right. reflexivity. }
  split; [split; [exact Hy | exact (Hiso Hy)] |].
  split; [exact He |].
  destruct (Hfields _ He) as (Hdom & Hdate & _).
  split; [exact Hdom | exact Hdate].
Defined.

End HistoryTheorems.

(** ** The quiz screen *)

Section QuizScreenTheorems.

Import QuizScreen.

(** C4, as the code has it.  Once the current question has received the
    result of an answer ([result] is set), a further call of
    [handleAnswer] before the next question is loaded does not fail: its
    promise is fulfilled at once, the state stays as it is and nothing is
    sent to the server.  That is the state every reply of the server
    leaves behind.  After [loadQuestion] has loaded the next question an
    answer is taken again: it is selected and sent. *)
Theorem C4_repeated_answer_ignored
        (answer : js_string) (st : screen_state) (data : answer_data)
        (Hanswered : result st = Some data) :
  handleAnswer answer st = (st, [], Fulfilled) /\
  (forall e, snd (handleAnswer answer st) <> Rejected e) /\
  (forall st0 : screen_state,
      result (fst (fst (handleAnswer_resume (Returns data) st0))) = Some data) /\
  (forall next,
      result (loadQuestion (Returns next) st) = None /\
      exists st1,
        handleAnswer answer (loadQuestion (Returns next) st)
        = (st1, [CheckAnswerRequest answer], Awaiting) /\
        selectedAnswer st1 = Some answer /\
        questionData st1 = Some next).
Proof.
  assert (Hcall : handleAnswer answer st = (st, [], Fulfilled)).
  { unfold handleAnswer. now rewrite Hanswered. }
  split; [exact Hcall |]. split; [| split].
  - intros e. rewrite Hcall. discriminate.
  - intros st0. reflexivity.
  - intros next. split; [reflexivity |].
    eexists. split; [reflexivity |]. split; reflexivity.
Qed.

Lemma C4_repeated_answer_ignored_witness :
  result answered_screen = Some (AnswerData true (js "B") true) /\
  handleAnswer (js "C") answered_screen = (answered_screen, [], Fulfilled) /\
  (forall e, snd (handleAnswer (js "C") answered_screen) <> Rejected e) /\
  (forall st0 : screen_state,
      result (fst (fst (handleAnswer_resume
                          (Returns (AnswerData true (js "B") true)) st0)))
      = Some (AnswerData true (js "B") true)) /\
  (forall next,
      result (loadQuestion (Returns next) answered_screen) = None /\
      exists st1,
        handleAnswer (js "C") (loadQuestion (Returns next) answered_screen)
        = (st1, [CheckAnswerRequest (js "C")], Awaiting) /\
        selectedAnswer st1 = Some (js "C") /\
        questionData st1 = Some next).
Proof.
  split; [reflexivity |].
  exact (C4_repeated_answer_ignored (js "C") answered_screen
           (AnswerData true (js "B") true) eq_refl).
Defined.

(** C4 fails as stated: on a screen that already shows the result of an
    answer, a second answer is not rejected with an error; the promise of
    the call is fulfilled, with the state unchanged and nothing sent. *)
Lemma C4_second_answer_returns_normally :
  result answered_screen <> None /\
  handleAnswer (js "C") answered_screen = (answered_screen, [], Fulfilled) /\
  forall e : js_error,
    snd (handleAnswer (js "C") answered_screen) <> Rejected e.
Proof. repeat split; discriminate. Qed.

End QuizScreenTheorems.

(** ** The question-bank parser *)

Section ParserFacts.

Import JsString Parser.

Lemma QUESTION_nonempty : QUESTION <> [].
Proof. discriminate. Qed.

(** A deck comes out only when every block is valid, record by record. *)
Lemma parse_blocks_ok (bs : list js_string) : forall n qs,
  parse_blocks n bs = inr qs <->
  Forall2 (fun b q => parse_block b = inr q) bs qs.
Proof.
  induction bs as [|b bs IH]; intros n qs; simpl.
  - split.
    + intros [= <-]. constructor.
    + intros H. inversion H. reflexivity.
  - destruct (parse_block b) as [r | q] eqn:Hb.
    + split; [discriminate |]. intros H. inversion H; subst. congruence.
    + destruct (parse_blocks (S n) bs) as [e | qs'] eqn:Hbs.
      * split; [discriminate |]. intros H. inversion H; subst.
        match goal with
        | Hf : Forall2 _ bs _ |- _ => apply (IH (S n)) in Hf; congruence
        end.
      * split.
        -- intros [= <-]. constructor; [exact Hb | now apply (IH (S n))].
        -- intros H. inversion H; subst.
           match goal with
           | Hf : Forall2 _ bs _ |- _ => apply (IH (S n)) in Hf
           end.
           congruence.
Qed.

(** The first block that fails decides the error. *)
Lemma parse_blocks_first_error (bs : list js_string) : forall n i b r,
  bs !! i = Some b -> parse_block b = inl r ->
  (forall k b', k < i -> bs !! k = Some b' -> exists q, parse_block b' = inr q) ->
  parse_blocks n bs = inl (Error (n + i) r).
Proof.
  induction bs as [|b0 bs IH]; intros n i b r Hi Hb Hbefore; [discriminate |].
  destruct i as [|i]; simpl in Hi.
  - injection Hi as ->. simpl. rewrite Hb. now rewrite Nat.add_0_r.
  - simpl. destruct (Hbefore 0 b0 ltac:(lia) eq_refl) as (q & Hq).
    rewrite Hq.
    rewrite (IH (S n) i b r Hi Hb).
    + f_equal. f_equal. lia.
    + intros k b' Hk Hb'. apply (Hbefore (S k) b'); [lia | exact Hb'].
Qed.

(** Among the failing blocks there is a first one. *)
Lemma first_failing_block (bs : list js_string) : forall i b r,
  bs !! i = Some b -> parse_block b = inl r ->
  exists j b' r',
    j <= i /\ bs !! j = Some b' /\ parse_block b' = inl r' /\
    forall k b'', k < j -> bs !! k = Some b'' ->
                  exists q, parse_block b'' = inr q.
Proof.
  induction bs as [|b0 bs IH]; intros i b r Hi Hb; [discriminate |].
  destruct (parse_block b0) as [r0 | q0] eqn:H0.
  - exists 0, b0, r0. repeat split; [lia | exact H0 |]. intros k ? Hk. lia.
  - destruct i as [|i]; simpl in Hi; [congruence |].
    destruct (IH i b r Hi Hb) as (j & b' & r' & Hj & Hb' & Hr' & Hbefore).
    exists (S j), b', r'. repeat split; [lia | exact Hb' | exact Hr' |].
    intros k b'' Hk Hk'. destruct k as [|k]; simpl in Hk'.
    + injection Hk' as <-. eauto.
    + apply (Hbefore k b''); [lia | exact Hk'].
Qed.

Lemma parse_unfold (rawText : js_string) :
  blocks_of rawText <> [] ->
  parse rawText = parse_blocks 1 (blocks_of rawText).
Proof.
  unfold parse, blocks_of.
  pose proof (split_not_nil QUESTION QUESTION_nonempty rawText) as Hne.
  destruct (split QUESTION rawText) as [|pre [|b bs]]; simpl; congruence.
Qed.

Lemma parse_no_blocks (rawText : js_string) :
  blocks_of rawText = [] -> parse rawText = inl (Error 0 NoQuestionBlocks).
Proof.
  unfold parse, blocks_of.
  destruct (split QUESTION rawText) as [|pre [|b bs]]; simpl; congruence.
Qed.

(** Each rule of the validation, on a block that breaks it. *)
Example parse_block_rules :
  parse_block (js "no marker at all") = inl MissingChoicesMarker /\
  parse_block block_without_answer = inl MissingAnswerMarker /\
  parse_block (block_of "  " four_choices (Some "A")) = inl EmptyPrompt /\
  parse_block (block_of "Q?" ["A: 1"; "B: 2"; "C: 3"]%string (Some "A"))
  = inl WrongChoiceCount /\
  parse_block (block_of "Q?" ["A: 1"; "B: 2"; "C: 3"; "E: 4"]%string (Some "A"))
  = inl UnrecognizedLetter /\
  parse_block (block_of "Q?" ["A: 1"; "B: 2"; "C: 3"; "C: 4"]%string (Some "A"))
  = inl DuplicateLetter /\
  parse_block (block_of "Q?" four_choices (Some "E")) = inl AnswerNotAmongChoices /\
  parse_block (sample_block "D") = inr (sample_question D) /\
  parse (js "notes without a question") = inl (Error 0 NoQuestionBlocks).
Proof. vm_compute. repeat split. Qed.

End ParserFacts.

Section ParserTheorems.

Import JsString Parser.

(** C3.  When a block of the text fails validation, [parse] returns a
    parse error and no deck: the error names the first failing block by
    its 1-based index, with the rule that this block broke; it is the
    given block when no earlier block fails.  Conversely a deck is
    returned only when every block is valid, and then it holds the
    record of every block, in order.  In the text of the specification,
    two blocks of which the second lacks its ANSWER section, the result
    is the error for block 2. *)
Theorem C3_parse_atomic (rawText : js_string) :
  (forall i block r,
     blocks_of rawText !! i = Some block -> parse_block block = inl r ->
     (exists j block' r',
        j <= i /\ blocks_of rawText !! j = Some block' /\
        parse_block block' = inl r' /\
        parse rawText = inl (Error (S j) r')) /\
     ((forall k b, k < i -> blocks_of rawText !! k = Some b ->
                   exists q, parse_block b = inr q) ->
      parse rawText = inl (Error (S i) r)) /\
     (forall deck, parse rawText <> inr deck)) /\
  (forall deck, parse rawText = inr deck ->
     Forall2 (fun b q => parse_block b = inr q) (blocks_of rawText) deck) /\
  parse (js "My notes" ++ QUESTION ++ sample_block "B"
         ++ QUESTION ++ block_without_answer)
  = inl (Error 2 MissingAnswerMarker).
Proof.
  split; [| split].
  - intros i block r Hi Hb.
    assert (Hne : blocks_of rawText <> []).
    { intros E. rewrite E in Hi. discriminate. }
    assert (Hfirst : exists j block' r',
               j <= i /\ blocks_of rawText !! j = Some block' /\
               parse_block block' = inl r' /\
               parse rawText = inl (Error (S j) r')).
    { destruct (first_failing_block _ i block r Hi Hb)
        as (j & b' & r' & Hj & Hb' & Hr' & Hbefore).
      exists j, b', r'. repeat split; try assumption.
      rewrite parse_unfold by exact Hne.
      apply (parse_blocks_first_error _ 1 j b' r' Hb' Hr' Hbefore). }
    split; [exact Hfirst | split].
    + intros Hbefore. rewrite parse_unfold by exact Hne.
      apply (parse_blocks_first_error _ 1 i block r Hi Hb Hbefore).
    + intros deck Hdeck. destruct Hfirst as (j & b' & r' & _ & _ & _ & Herr).
      congruence.
  - intros deck Hdeck.
    destruct (blocks_of rawText) as [|b bs] eqn:Hbs.
    + rewrite parse_no_blocks in Hdeck by exact Hbs. discriminate.
    + rewrite parse_unfold in Hdeck by (rewrite Hbs; discriminate).
      rewrite Hbs in Hdeck. now apply parse_blocks_ok in Hdeck.
  - vm_compute. reflexivity.
Qed.

Lemma C3_parse_atomic_witness :
  (blocks_of (QUESTION ++ sample_block "B" ++ QUESTION ++ block_without_answer)
     !! 1 = Some block_without_answer /\
   parse_block block_without_answer = inl MissingAnswerMarker) /\
  parse (QUESTION ++ sample_block "B" ++ QUESTION ++ block_without_answer)
  = inl (Error 2 MissingAnswerMarker) /\
  parse (QUESTION ++ sample_block "B" ++ QUESTION ++ sample_block "A")
  = inr [sample_question B; sample_question A] /\
  Forall2 (fun b q => parse_block b = inr q)
          (blocks_of (QUESTION ++ sample_block "B" ++ QUESTION ++ sample_block "A"))
          [sample_question B; sample_question A].
Proof.
  pose proof (C3_parse_atomic
                (QUESTION ++ sample_block "B" ++ QUESTION ++ block_without_answer))
    as (Hfail & _ & _).
  pose proof (C3_parse_atomic
                (QUESTION ++ sample_block "B" ++ QUESTION ++ sample_block "A"))
    as (_ & Hdeck & _).
  assert (H1 : blocks_of (QUESTION ++ sample_block "B" ++ QUESTION
                          ++ block_without_answer) !! 1
               = Some block_without_answer) by (vm_compute; reflexivity).
  assert (H2 : parse_block block_without_answer = inl MissingAnswerMarker)
    by (vm_compute; reflexivity).
  assert (H3 : parse (QUESTION ++ sample_block "B" ++ QUESTION ++ sample_block "A")
               = inr [sample_question B; sample_question A])
    by (vm_compute; reflexivity).
  destruct (Hfail 1 block_without_answer MissingAnswerMarker H1 H2)
    as (_ & Hthis & _).
  split; [split; [exact H1 | exact H2] |].
  split.
  - apply Hthis. intros k b Hk Hb.
    destruct k as [|k]; [| lia].
    vm_compute in Hb. injection Hb as <-.
    exists (sample_question B). vm_compute. reflexivity.
  - split; [exact H3 | exact (Hdeck _ H3)].
Defined.

End ParserTheorems.

(** ** The quiz session engine *)

Section SessionFacts.

Import Parser Session.

(** Rounding half up gives the nearest whole number, a tie going up. *)
Lemma round_half_up_nearest (q : Q) :
  (inject_Z (round_half_up q) - (1 # 2) <= q)%Q /\
  (q < inject_Z (round_half_up q) + (1 # 2))%Q.
Proof.
  unfold round_half_up.
  pose proof (Qfloor_le (q + (1 # 2))) as Hle.
  pose proof (Qlt_floor (q + (1 # 2))) as Hlt.
  rewrite inject_Z_plus in Hlt. change (inject_Z 1) with 1%Q in Hlt.
  split; lra.
Qed.

Lemma round_half_up_unique (q : Q) (p : Z) :
  (inject_Z p - (1 # 2) <= q)%Q -> (q < inject_Z p + (1 # 2))%Q ->
  round_half_up q = p.
Proof.
  intros Hle Hlt. unfold round_half_up.
  pose proof (Qfloor_le (q + (1 # 2))) as Fle.
  pose proof (Qlt_floor (q + (1 # 2))) as Flt.
  rewrite inject_Z_plus in Flt. change (inject_Z 1) with 1%Q in Flt.
  assert (H1 : (inject_Z p < inject_Z (Qfloor (q + (1 # 2))) + 1)%Q) by lra.
  assert (H2 : (inject_Z (Qfloor (q + (1 # 2))) < inject_Z p + 1)%Q) by lra.
  change 1%Q with (inject_Z 1) in H1, H2.
  rewrite <- inject_Z_plus in H1, H2. rewrite <- Zlt_Qlt in H1, H2. lia.
Qed.

(** The scenario of section 8 of the specification. *)
Example session_scenario :
  let deck := [sample_question B; sample_question A] in
  exists s1 s2 s3 s4,
    submitAnswer B (new_session deck) = inr (s1, AnswerResult true B) /\
    state s1 = InProgress 0 1 true /\
    advance s1 = inr s2 /\ state s2 = InProgress 1 1 false /\
    submitAnswer C s2 = inr (s3, AnswerResult false A) /\
    state s3 = InProgress 1 1 true /\
    advance s3 = inr s4 /\ state s4 = Completed 1 2 /\
    results s4 = inr (Summary 1 2 50).
Proof. cbv zeta. do 4 eexists. vm_compute. repeat split. Qed.

End SessionFacts.

Section SessionTheorems.

Import Parser Session.

(** The engine of the specification rejects a second answer: in a
    session in progress whose current question has been answered,
    [submitAnswer] fails with AlreadyAnsweredError, and so does the call
    that follows a successful one. *)
Lemma submitAnswer_twice_rejected (s : QuizSession) (l : letter) :
  (forall i sc, state s = InProgress i sc true ->
                submitAnswer l s = inl AlreadyAnsweredError) /\
  (forall s' r l', submitAnswer l s = inr (s', r) ->
                   submitAnswer l' s' = inl AlreadyAnsweredError).
Proof.
  split.
  - intros i sc H. unfold submitAnswer. now rewrite H.
  - intros s' r l' H. unfold submitAnswer in H.
    destruct (state s) as [i sc [|] | sc tot]; try discriminate.
    destruct (deck s !! i) as [q|]; [| discriminate].
    injection H as <- _. reflexivity.
Qed.

(** C6.  In the Completed state of a session with a non-empty deck,
    [results] returns the score, the length of the deck as total, and as
    percentage the whole number nearest to 100 * score / total, a tie
    going up: the percentage [p] is the one integer with
    p - 1/2 <= 100 * score / total < p + 1/2. *)
Theorem C6_results_percentage (s : QuizSession) (sc tot : nat) :
  state s = Completed sc tot -> deck s <> [] ->
  exists p : Z,
    results s = inr (Summary sc (length (deck s)) p) /\
    let x := (100 * inject_Z (Z.of_nat sc)
              / inject_Z (Z.of_nat (length (deck s))))%Q in
    p = round_half_up x /\
    (inject_Z p - (1 # 2) <= x)%Q /\ (x < inject_Z p + (1 # 2))%Q /\
    (forall p' : Z,
       (inject_Z p' - (1 # 2) <= x)%Q -> (x < inject_Z p' + (1 # 2))%Q ->
       p' = p) /\
    ((2 * p - 1) * Z.of_nat (length (deck s)) <= 200 * Z.of_nat sc
     < (2 * p + 1) * Z.of_nat (length (deck s)))%Z.
Proof.
  intros Hst Hdeck. eexists. split.
  - unfold results. rewrite Hst. reflexivity.
  - cbv zeta.
    set (x := (100 * inject_Z (Z.of_nat sc)
               / inject_Z (Z.of_nat (length (deck s))))%Q).
    destruct (round_half_up_nearest x) as [Hle Hlt].
    split; [reflexivity |]. split; [exact Hle |]. split; [exact Hlt |].
    split.
    + intros p' H1 H2. symmetry. now apply round_half_up_unique.
    + assert (Hn : (0 < Z.of_nat (length (deck s)))%Z).
      { destruct (deck s); [contradiction | simpl; lia]. }
      set (n := Z.of_nat (length (deck s))) in *.
      set (p := round_half_up x) in *.
      assert (Hnq : (0 < inject_Z n)%Q).
      { rewrite (Zlt_Qlt 0 n) in Hn. exact Hn. }
      assert (Hx : (x * inject_Z n == 100 * inject_Z (Z.of_nat sc))%Q).
      { unfold x. field. intros E. rewrite E in Hnq. now apply Qlt_irrefl in Hnq. }
      assert (H1 : ((inject_Z p - (1 # 2)) * inject_Z n <= x * inject_Z n)%Q).
      { apply Qmult_le_compat_r; [exact Hle | now apply Qlt_le_weak]. }
      assert (H2 : (x * inject_Z n < (inject_Z p + (1 # 2)) * inject_Z n)%Q).
      { apply Qmult_lt_compat_r; assumption. }
      rewrite Hx in H1, H2.
      split.
      * unfold Z.sub.
        rewrite Zle_Qle, !inject_Z_mult, inject_Z_plus, inject_Z_opp,
          !inject_Z_mult.
        change (inject_Z 200) with (200 # 1)%Q.
        change (inject_Z 2) with (2 # 1)%Q. change (inject_Z 1) with (1 # 1)%Q.
        lra.
      * rewrite Zlt_Qlt, !inject_Z_mult, inject_Z_plus, !inject_Z_mult.
        change (inject_Z 200) with (200 # 1)%Q.
        change (inject_Z 2) with (2 # 1)%Q. change (inject_Z 1) with (1 # 1)%Q.
        lra.
Qed.

Lemma C6_results_percentage_witness :
  (state (Session [sample_question B; sample_question A] (Completed 1 2))
   = Completed 1 2 /\
   deck (Session [sample_question B; sample_question A] (Completed 1 2)) <> []) /\
  results (Session [sample_question B; sample_question A] (Completed 1 2))
  = inr (Summary 1 2 50).
Proof.
  assert (H1 : state (Session [sample_question B; sample_question A]
                              (Completed 1 2)) = Completed 1 2) by reflexivity.
  assert (H2 : deck (Session [sample_question B; sample_question A]
                             (Completed 1 2)) <> []) by discriminate.
  split; [split; [exact H1 | exact H2] |].
  destruct (C6_results_percentage _ 1 2 H1 H2) as (p & Hres & Hp & _).
  rewrite Hres, Hp. reflexivity.
Defined.

End SessionTheorems.

(* ===================================================================== *)
(** * Part III: further properties of the sources *)
(* ===================================================================== *)

(** ** The content renderer *)

Section RendererMore.

Import JsString Renderer RendererView.

Lemma split_no_marker (m : js_string) (s : js_string) :
  m <> [] -> includes m s = false -> split m s = [s].
Proof.
  intros Hm Hinc.
  pose proof (split_length m Hm s) as Hlen.
  pose proof (join_split m Hm s) as Hjoin.
  apply (match_count_zero m Hm) in Hinc. rewrite Hinc in Hlen.
  destruct (split m s) as [|p [|q l]]; try discriminate.
  simpl in Hjoin. now rewrite Hjoin.
Qed.

(** X1.  A text without the CODE marker is shown as one paragraph, its
    trimmed text; a text of white space only shows nothing. *)
Theorem X1_plain_text_one_paragraph (text : js_string) :
  includes CODE text = false ->
  segments text = match trim text with
                  | [] => []
                  | _ :: _ => [Segment prose (trim text)]
                  end.
Proof.
  intros H. rewrite segments_unfold, (split_no_marker CODE text CODE_nonempty H).
  simpl. unfold render_part. simpl.
  destruct (trim text); reflexivity.
Qed.

Lemma X1_plain_text_one_paragraph_witness :
  includes CODE (js "  What is 2 + 2?  ") = false /\
  segments (js "  What is 2 + 2?  ") = [Segment prose (js "What is 2 + 2?")].
Proof.
  split; [reflexivity |].
  exact (X1_plain_text_one_paragraph (js "  What is 2 + 2?  ") eq_refl).
Defined.

(** White space in front of a text and behind it. *)
Lemma trimStart_app_ws (w s : js_string) :
  Forall (fun c => is_white_space c = true) w ->
  trimStart (w ++ s) = trimStart s.
Proof.
  induction 1 as [|c w Hc _ IH]; [reflexivity |]. simpl. now rewrite Hc.
Qed.

Lemma trimEnd_app_ws (s w : js_string) :
  Forall (fun c => is_white_space c = true) w ->
  trimEnd (s ++ w) = trimEnd s.
Proof.
  intros Hw. unfold trimEnd. rewrite rev_app_distr.
  rewrite trimStart_app_ws; [reflexivity | now apply List.Forall_rev].
Qed.

Lemma trimStart_all_ws (w : js_string) :
  Forall (fun c => is_white_space c = true) w -> trimStart w = [].
Proof.
  intros Hw. rewrite <- (app_nil_r w). now rewrite trimStart_app_ws.
Qed.

Lemma trimStart_app_r (s w : js_string) :
  trimStart s <> [] -> trimStart (s ++ w) = trimStart s ++ w.
Proof.
  induction s as [|c s IH]; simpl; [contradiction |].
  destruct (is_white_space c); [exact IH | reflexivity].
Qed.

Lemma trim_app_ws_l (w s : js_string) :
  Forall (fun c => is_white_space c = true) w -> trim (w ++ s) = trim s.
Proof. intros Hw. unfold trim. now rewrite trimStart_app_ws. Qed.

Lemma trim_app_ws_r (s w : js_string) :
  Forall (fun c => is_white_space c = true) w -> trim (s ++ w) = trim s.
Proof.
  intros Hw. unfold trim.
  destruct (trimStart s) as [|c t] eqn:Hs.
  - destruct (trimStart_decompose s) as (w0 & Hdec & Hw0).
    rewrite Hs, app_nil_r in Hdec. subst w0.
    rewrite trimStart_all_ws; [reflexivity |].
    apply Forall_app. split; assumption.
  - rewrite trimStart_app_r by (rewrite Hs; discriminate).
    rewrite Hs. now apply trimEnd_app_ws.
Qed.

Lemma render_part_ws_l (i : nat) (w s : js_string) :
  Forall (fun c => is_white_space c = true) w ->
  render_part i (w ++ s) = render_part i s.
Proof. intros Hw. unfold render_part. now rewrite trim_app_ws_l. Qed.

Lemma render_part_ws_r (i : nat) (s w : js_string) :
  Forall (fun c => is_white_space c = true) w ->
  render_part i (s ++ w) = render_part i s.
Proof. intros Hw. unfold render_part. now rewrite trim_app_ws_r. Qed.

(** The marker holds no white space, so white space next to a text
    neither makes nor breaks a match. *)
Lemma CODE_no_white_space : Forall (fun c => is_white_space c = false) CODE.
Proof. repeat constructor. Qed.

Lemma starts_with_app_ws (m s w : js_string) :
  Forall (fun c => is_white_space c = false) m ->
  Forall (fun c => is_white_space c = true) w ->
  m <> [] ->
  starts_with m (s ++ w) = starts_with m s.
Proof.
  intros Hm Hw. revert s. induction Hm as [|a m Ha Hm IH]; intros s Hne.
  - contradiction.
  - destruct s as [|b s]; simpl.
    + destruct Hw as [|c w Hc Hw]; [reflexivity |].
      destruct (N.eqb_spec a c) as [-> | _]; [congruence | reflexivity].
    + destruct m as [|a' m'].
      * destruct (a =? b)%N; reflexivity.
      * rewrite (IH s); [reflexivity | discriminate].
Qed.

Lemma split_ws_l (w s : js_string) :
  Forall (fun c => is_white_space c = true) w ->
  split CODE (w ++ s) = match split CODE s with
                        | h :: t => (w ++ h) :: t
                        | [] => [w]
                        end.
Proof.
  induction 1 as [|c w Hc Hw IH]; simpl.
  - pose proof (split_not_nil CODE CODE_nonempty s).
    destruct (split CODE s); [contradiction | reflexivity].
  - rewrite (split_nomatch CODE CODE_nonempty).
    + rewrite IH. pose proof (split_not_nil CODE CODE_nonempty s).
      destruct (split CODE s); [contradiction | reflexivity].
    + change CODE with (34%N :: tl CODE). cbn [starts_with].
      destruct (N.eqb_spec 34 c) as [<- | _]; [discriminate | reflexivity].
Qed.

Lemma split_ws_r (s w : js_string) :
  Forall (fun c => is_white_space c = true) w ->
  split CODE (s ++ w)
  = removelast (split CODE s) ++ [List.last (split CODE s) [] ++ w].
Proof.
  intros Hw.
  induction s as [| s' IH | c rest Hsw IH] using (scan_ind CODE CODE_nonempty).
  - simpl app at 1. rewrite <- (app_nil_r w) at 1.
    rewrite (split_ws_l w [] Hw). simpl. now rewrite app_nil_r.
  - rewrite <- app_assoc, !(split_match CODE CODE_nonempty), IH.
    pose proof (split_not_nil CODE CODE_nonempty s').
    destruct (split CODE s'); [contradiction | reflexivity].
  - change ((c :: rest) ++ w) with (c :: (rest ++ w)).
    rewrite (split_nomatch CODE CODE_nonempty c (rest ++ w)).
    + rewrite IH, (split_nomatch CODE CODE_nonempty c rest Hsw).
      pose proof (split_not_nil CODE CODE_nonempty rest).
      destruct (split CODE rest) as [|h [|h' t]]; [contradiction | | ];
        reflexivity.
    + change (c :: rest ++ w) with ((c :: rest) ++ w).
      rewrite starts_with_app_ws;
        auto using CODE_no_white_space, CODE_nonempty.
Qed.

Lemma imap_render_part_ws_l (w h : js_string) (t : list js_string) :
  Forall (fun c => is_white_space c = true) w ->
  imap render_part ((w ++ h) :: t) = imap render_part (h :: t).
Proof. intros Hw. simpl. now rewrite render_part_ws_l. Qed.

Lemma imap_render_part_ws_r (l : list js_string) (w : js_string) :
  Forall (fun c => is_white_space c = true) w -> l <> [] ->
  imap render_part (removelast l ++ [List.last l [] ++ w])
  = imap render_part l.
Proof.
  intros Hw Hl.
  rewrite (app_removelast_last [] Hl) at 3.
  rewrite !imap_app. simpl. now rewrite render_part_ws_r.
Qed.

(** X2.  White space in front of the whole text and behind it never
    shows: the segments are those of the text without it. *)
Theorem X2_outer_white_space_ignored (w1 text w2 : js_string) :
  Forall (fun c => is_white_space c = true) w1 ->
  Forall (fun c => is_white_space c = true) w2 ->
  segments (w1 ++ text ++ w2) = segments text.
Proof.
  intros H1 H2. rewrite !segments_unfold. f_equal.
  rewrite (split_ws_l w1 (text ++ w2) H1), (split_ws_r text w2 H2).
  pose proof (split_not_nil CODE CODE_nonempty text) as Hne.
  rewrite <- (imap_render_part_ws_r (split CODE text) w2 H2 Hne).
  destruct (removelast (split CODE text) ++ [List.last (split CODE text) [] ++ w2])
    as [|h t] eqn:E.
  - destruct (removelast (split CODE text)); discriminate.
  - now apply imap_render_part_ws_l.
Qed.

Lemma X2_outer_white_space_ignored_witness :
  (Forall (fun c => is_white_space c = true) [10; 32]%N /\
   Forall (fun c => is_white_space c = true) [9; 10]%N) /\
  segments ([10; 32]%N ++ parity_text ++ [9; 10]%N) = segments parity_text.
Proof.
  assert (H1 : Forall (fun c => is_white_space c = true) [10; 32]%N)
    by (repeat constructor).
  assert (H2 : Forall (fun c => is_white_space c = true) [9; 10]%N)
    by (repeat constructor).
  split; [split; assumption |].
  exact (X2_outer_white_space_ignored [10; 32]%N parity_text [9; 10]%N H1 H2).
Defined.

(** X3.  For a non-empty text the container has one child per fragment,
    one more than there are markers, and every element among them carries
    its position as its key: the keys are distinct. *)
Theorem X3_children_keyed_by_position (text : js_string) :
  text <> [] ->
  exists children,
    parseQuestionContent (VString text) = Returns (RContainer children) /\
    length children = S (match_count CODE text) /\
    (forall i c, children !! i = Some c ->
                 c = EmptyText \/ child_key c = Some i) /\
    (forall i j c c' k, children !! i = Some c -> children !! j = Some c' ->
                        child_key c = Some k -> child_key c' = Some k -> i = j).
Proof.
  intros Hne. eexists. split; [now apply parseQuestionContent_string |].
  assert (Hkey : forall i c,
             imap render_part (split CODE text) !! i = Some c ->
             c = EmptyText \/ child_key c = Some i).
  { intros i c Hi. rewrite list_lookup_imap in Hi.
    destruct (split CODE text !! i) as [part|]; [| discriminate].
    injection Hi as <-. unfold render_part.
    destruct (Nat.odd i); [now right |].
    destruct (trim part); [now left | now right]. }
  split; [| split].
  - rewrite length_imap. apply split_length, CODE_nonempty.
  - exact Hkey.
  - intros i j c c' k Hi Hj Hc Hc'.
    destruct (Hkey i c Hi) as [-> | Hi']; [discriminate |].
    destruct (Hkey j c' Hj) as [-> | Hj']; [discriminate |].
    congruence.
Qed.

Lemma X3_children_keyed_by_position_witness :
  parity_text <> [] /\
  exists children,
    parseQuestionContent (VString parity_text) = Returns (RContainer children) /\
    length children = S (match_count CODE parity_text) /\
    (forall i c, children !! i = Some c ->
                 c = EmptyText \/ child_key c = Some i) /\
    (forall i j c c' k, children !! i = Some c -> children !! j = Some c' ->
                        child_key c = Some k -> child_key c' = Some k -> i = j).
Proof.
  assert (H : parity_text <> []) by discriminate.
  split; [exact H | exact (X3_children_keyed_by_position parity_text H)].
Defined.

Lemma code_count_from (l : list js_string) : forall k,
  length (List.filter is_code
            (flat_map child_segments (imap (fun i => render_part (k + i)) l)))
  = (length l + (if Nat.odd k then 1 else 0)) / 2.
Proof.
  induction l as [|p l IH]; intros k.
  - simpl. destruct (Nat.odd k); reflexivity.
  - cbn [imap flat_map]. rewrite List.filter_app, length_app.
    assert (Hext : imap ((fun i => render_part (k + i)) ∘ S) l
                   = imap (fun i => render_part (S k + i)) l).
    { apply imap_ext. intros i x _. unfold compose. f_equal. lia. }
    rewrite Hext, (IH (S k)), Nat.add_0_r, child_segments_render_part.
    rewrite Nat.odd_succ, <- Nat.negb_odd.
    cbn [length].
    destruct (Nat.odd k) eqn:Hk; cbn [negb].
    + cbn [List.filter is_code seg_kind length].
      replace (S (length l) + 1) with (length l + 0 + 1 * 2) by lia.
      rewrite Nat.div_add by lia. lia.
    + replace (S (length l) + 0) with (length l + 1) by lia.
      destruct (trim p); cbn [List.filter is_code seg_kind length]; lia.
Qed.

(** X4.  Every opened code block is shown: with [n] markers in the text
    there are exactly (n + 1) / 2 code segments, whatever the fragments
    hold. *)
Theorem X4_code_segment_count (text : js_string) :
  length (List.filter is_code (segments text))
  = (match_count CODE text + 1) / 2.
Proof.
  rewrite segments_unfold.
  pose proof (code_count_from (split CODE text) 0) as H.
  cbn [Nat.odd Nat.even negb] in H. simpl Nat.add in H.
  rewrite (split_length CODE CODE_nonempty) in H.
  rewrite Nat.add_0_r in H.
  replace (match_count CODE text + 1) with (S (match_count CODE text)) by lia.
  exact H.
Qed.

End RendererMore.

(** ** The history log and the history screens *)

Section HistoryMore.

Import Results History HistoryLog HistoryView.

Lemma since_last_clear_snoc (evs : list event) (ev : event) :
  since_last_clear (evs ++ [ev])
  = match ev with
    | Clear => []
    | _ => since_last_clear evs ++ [ev]
    end.
Proof. unfold since_last_clear. now rewrite fold_left_app. Qed.

(** The log after a run, read off the events since the last clearing. *)
Lemma read_history_run (evs : list event) :
  read_history (run evs)
  = take 20 (rev (omap entry_of (since_last_clear evs))).
Proof.
  induction evs as [|ev evs IH] using rev_ind; [reflexivity |].
  rewrite run_snoc, since_last_clear_snoc.
  destruct ev as [start n1 n2 data | n data |].
  - rewrite (step_save _ (LegacySave start n1 n2 data) _ eq_refl), IH.
    rewrite omap_app, rev_app_distr. cbn [read_history].
    rewrite capped_take. reflexivity.
  - rewrite (step_save _ (ReactSave n data) _ eq_refl), IH.
    rewrite omap_app, rev_app_distr. cbn [read_history].
    rewrite capped_take. reflexivity.
  - reflexivity.
Qed.

(** X5.  Whatever the saves and clearings were, the log holds the last
    twenty entries saved since the last clearing, newest first: as many
    entries as there were saves since then, up to twenty. *)
Theorem X5_log_since_last_clear (evs : list event) :
  read_history (run evs)
  = take 20 (rev (omap entry_of (since_last_clear evs))) /\
  length (read_history (run evs)) = Nat.min 20 (length (since_last_clear evs)).
Proof.
  split; [exact (read_history_run evs) |].
  rewrite read_history_run, length_take, length_rev. f_equal.
  induction evs as [|ev evs IH] using rev_ind; [reflexivity |].
  rewrite since_last_clear_snoc.
  destruct ev; [| | reflexivity]; rewrite omap_app, !length_app, IH; reflexivity.
Qed.

(** X6.  The duration that the legacy page stores.  With a start time and
    a clock that did not run backwards, it reads [m]m [s]s where 60 m + s
    is the elapsed time in seconds, rounded to the nearest second, and
    s is below 60.  Without a start time it reads 0m 0s.  When the clock
    ran backwards by a time that is not a whole number of minutes, the two
    numbers shown add up to one minute less than the (negative) time. *)
Theorem X6_legacy_duration (start now_elapsed now_date : Z)
        (data : results_payload) :
  let secs := ((now_elapsed - start + 500) / 1000)%Z in
  let shown (m s : Z) :=
    saveQuizToHistory_entry (Some start) now_elapsed now_date data
      !! "duration"
    = Some (VString (Z_to_js m ++ js "m " ++ Z_to_js s ++ js "s")) in
  (start <> 0%Z -> (start <= now_elapsed)%Z ->
   exists m s : Z,
     shown m s /\ (0 <= m)%Z /\ (0 <= s < 60)%Z /\ (60 * m + s = secs)%Z /\
     (-500 < 1000 * secs - (now_elapsed - start) <= 500)%Z) /\
  (start <> 0%Z -> (secs < 0)%Z -> (secs mod 60 <> 0)%Z ->
   exists m s : Z, shown m s /\ (60 * m + s = secs - 60)%Z) /\
  saveQuizToHistory_entry None now_elapsed now_date data !! "duration"
  = Some (VString (js "0m 0s")) /\
  saveQuizToHistory_entry (Some 0%Z) now_elapsed now_date data !! "duration"
  = Some (VString (js "0m 0s")).
Proof.
  cbv zeta. split; [| split; [| split; reflexivity]].
  - intros Hs Hle.
    exists ((now_elapsed - start + 500) / 1000 / 60)%Z,
           (Z.rem ((now_elapsed - start + 500) / 1000) 60).
    assert (Hsecs : (0 <= (now_elapsed - start + 500) / 1000)%Z)
      by (apply Z.div_pos; lia).
    rewrite Z.rem_mod_nonneg by lia.
    split.
    + unfold saveQuizToHistory_entry, round_div_1000.
      apply Z.eqb_neq in Hs. rewrite Hs.
      rewrite Z.rem_mod_nonneg by lia. reflexivity.
    + Z.to_euclidean_division_equations. lia.
  - intros Hs Hneg Hmod.
    exists ((now_elapsed - start + 500) / 1000 / 60)%Z,
           (Z.rem ((now_elapsed - start + 500) / 1000) 60).
    split.
    + unfold saveQuizToHistory_entry, round_div_1000.
      apply Z.eqb_neq in Hs. rewrite Hs. reflexivity.
    + Z.to_euclidean_division_equations. lia.
Qed.

Lemma X6_legacy_duration_witness :
  (1000%Z <> 0%Z /\ (1000 <= 66500)%Z /\
   exists m s : Z,
     saveQuizToHistory_entry (Some 1000%Z) 66500%Z JsDate.sample_now one_of_two
       !! "duration"
     = Some (VString (Z_to_js m ++ js "m " ++ Z_to_js s ++ js "s")) /\
     (0 <= m)%Z /\ (0 <= s < 60)%Z /\
     (60 * m + s = (66500 - 1000 + 500) / 1000)%Z /\
     (-500 < 1000 * ((66500 - 1000 + 500) / 1000) - (66500 - 1000) <= 500)%Z) /\
  (66000%Z <> 0%Z /\ ((1000 - 66000 + 500) / 1000 < 0)%Z /\
   (((1000 - 66000 + 500) / 1000) mod 60 <> 0)%Z /\
   exists m s : Z,
     saveQuizToHistory_entry (Some 66000%Z) 1000%Z JsDate.sample_now one_of_two
       !! "duration"
     = Some (VString (Z_to_js m ++ js "m " ++ Z_to_js s ++ js "s")) /\
     (60 * m + s = (1000 - 66000 + 500) / 1000 - 60)%Z).
Proof.
  split.
  - assert (H1 : 1000%Z <> 0%Z) by discriminate.
    assert (H2 : (1000 <= 66500)%Z) by discriminate.
    split; [exact H1 |]. split; [exact H2 |].
    exact (proj1 (X6_legacy_duration 1000 66500 JsDate.sample_now one_of_two)
                 H1 H2).
  - assert (H1 : 66000%Z <> 0%Z) by discriminate.
    assert (H2 : ((1000 - 66000 + 500) / 1000 < 0)%Z) by reflexivity.
    assert (H3 : (((1000 - 66000 + 500) / 1000) mod 60 <> 0)%Z) by discriminate.
    split; [exact H1 |]. split; [exact H2 |]. split; [exact H3 |].
    exact (proj1 (proj2 (X6_legacy_duration 66000 1000 JsDate.sample_now
                                            one_of_two)) H1 H2 H3).
Defined.

Lemma good_messages (p : js_number) :
  fst (ResultsScreen_message p) = excellent \/
  fst (ResultsScreen_message p) = good_job <->
  js_ge p 70 = true.
Proof.
  unfold ResultsScreen_message.
  destruct (js_ge p 90) eqn:H90.
  - cbn [fst]. split; [intros _ | now left].
    destruct (js_ge p 70) eqn:H70; [reflexivity |].
    now rewrite (js_ge_false_mono p 70 90 ltac:(lia) H70) in H90.
  - destruct (js_ge p 70); cbn [fst].
    + split; [reflexivity | now right].
    + split; [| discriminate].
      destruct (js_ge p 50); cbn [fst]; intros [H | H];
        apply (f_equal (fun l => nth 0 l 0%N)) in H; vm_compute in H;
        discriminate.
Qed.

(** X7.  The history screen agrees with the results screen.  After the
    results screen saved a result, the first card of the history screen
    shows the score and total of that result and its percentage, rounded
    to the nearest whole number; its badge is green exactly when the
    results screen said excellent work or good job. *)
Theorem X7_history_card_matches_results (now_date : Z) (data : results_payload)
        (ls : local_storage) :
  exists rest,
    cards (HistoryScreen_render
             (HistoryScreen_mount (fetchResults now_date data ls)))
    = Some (Card (if Qle_bool 70 (percentage data)
                  then GreenBadge else OrangeBadge)
                 (Finite (inject_Z (Qfloor (percentage data + (1 # 2))%Q)))
                 (VNumber (Finite (score data)))
                 (VNumber (Finite (total data))))
        :: rest /\
    (Qle_bool 70 (percentage data) = true <->
     fst (ResultsScreen_message (Finite (percentage data))) = excellent \/
     fst (ResultsScreen_message (Finite (percentage data))) = good_job).
Proof.
  pose proof (step_save ls (ReactSave now_date data) _ eq_refl) as Hstep.
  cbn [step] in Hstep. unfold HistoryScreen_mount. rewrite Hstep.
  cbn [read_history]. eexists. split.
  - unfold HistoryScreen_render. cbn [length Nat.eqb map cards].
    reflexivity.
  - symmetry. apply (good_messages (Finite (percentage data))).
Qed.

Lemma card_of_saved (ev : event) (e : entry) :
  entry_of ev = Some e -> exists c, HistoryScreen_card e = Some c.
Proof.
  destruct ev; simpl; intros [= <-]; eexists; reflexivity.
Qed.

(** X8.  What the two history pages show of a log that the saves and
    clearings produced: one card, or one item, per entry of the log, at
    most twenty; every card is well formed; the notice that there is no
    history, and the disabled Clear button, appear exactly when nothing
    was saved since the last clearing. *)
Theorem X8_history_pages (evs : list event) :
  let log := read_history (run evs) in
  let screen := HistoryScreen_render (HistoryScreen_mount (run evs)) in
  let page := loadHistoryFromStorage (run evs) in
  length (cards screen) = length log /\
  length (items page) = length log /\
  length log <= 20 /\
  (forall c, In c (cards screen) -> c <> None) /\
  (empty_notice screen = true <-> omap entry_of (since_last_clear evs) = []) /\
  (clear_disabled screen = empty_notice screen) /\
  (emptyState_hidden page = negb (empty_notice screen)).
Proof.
  cbv zeta. unfold HistoryScreen_mount, HistoryScreen_render,
    loadHistoryFromStorage. cbv zeta.
  pose proof (run_length evs) as Hlen.
  pose proof (read_history_run evs) as Hlog.
  assert (Hcards : forall c,
             In c (map HistoryScreen_card (read_history (run evs))) ->
             c <> None).
  { intros c Hin. apply in_map_iff in Hin as (e & <- & He).
    destruct (run_entries evs e He) as (ev & _ & Hev).
    destruct (card_of_saved ev e Hev) as (c & ->). discriminate. }
  destruct (read_history (run evs)) as [|e h] eqn:Hh.
  - cbn [length Nat.eqb cards items empty_notice clear_disabled
           emptyState_hidden negb].
    split; [reflexivity |]. split; [reflexivity |]. split; [lia |].
    split; [intros c [] |]. split; [| split; reflexivity].
    split; [intros _ | reflexivity].
    destruct (rev (omap entry_of (since_last_clear evs))) as [|x l] eqn:E.
    + apply (f_equal (@rev entry)) in E. now rewrite rev_involutive in E.
    + discriminate.
  - cbn [length Nat.eqb cards items empty_notice clear_disabled
           emptyState_hidden negb].
    rewrite !length_map. cbn [length].
    split; [reflexivity |]. split; [reflexivity |]. split; [exact Hlen |].
    split; [exact Hcards |]. split; [| split; reflexivity].
    split; [discriminate |].
    intros E. rewrite E in Hlog. discriminate.
Qed.

End HistoryMore.

(** ** The quiz screen: keys and a whole quiz *)

Section QuizKeysMore.

Import QuizScreen JsGlobal QuizKeys.

Lemma choice_upper_answer (i : Z) (a : js_string) :
  choice_upper i = KeyAnswer a ->
  In a [js "A"; js "B"; js "C"; js "D"].
Proof.
  unfold choice_upper. destruct (i <? 0)%Z; [discriminate |].
  destruct (Z.to_nat i) as [|[|[|[|n]]]]; simpl; intros [= <-]; simpl; tauto.
Qed.

Lemma choice_upper_in_range (i : Z) :
  (0 <= i < 4)%Z -> exists a, choice_upper i = KeyAnswer a.
Proof.
  intros H. unfold choice_upper.
  assert (E : (i <? 0)%Z = false) by (apply Z.ltb_ge; lia). rewrite E.
  assert (Hn : Z.to_nat i < 4) by lia.
  destruct (Z.to_nat i) as [|[|[|[|n]]]]; simpl; eauto. lia.
Qed.

Lemma digit_key_range (c : code_unit) :
  string_ge [c] (js "1") && string_le [c] (js "4") = true ->
  (49 <= c <= 52)%N.
Proof.
  unfold string_ge, string_le.
  change (js "1") with [49%N]. change (js "4") with [52%N].
  cbn [string_lt].
  destruct (N.ltb_spec c 49), (N.ltb_spec 49 c), (N.ltb_spec 52 c),
    (N.ltb_spec c 52); cbn [negb andb]; intros; try discriminate; lia.
Qed.

Lemma parseInt_digit_key (c : code_unit) :
  (49 <= c <= 52)%N -> parseInt [c] = Some (Z.of_N c - 48)%Z.
Proof.
  intros H.
  assert (E : c = 49%N \/ c = 50%N \/ c = 51%N \/ c = 52%N) by lia.
  destruct E as [-> | [-> | [-> | ->]]]; reflexivity.
Qed.

(** X9.  The keyboard shortcuts of the quiz screen.  While a question
    loads or a result is shown, a key does nothing.  Otherwise the keys a
    to d (in either case) and 1 to 4 answer A to D, and no key ever
    answers anything else.  A key of a single code unit never makes the
    handler throw; a key value such as 12, which passes the comparison
    with the strings 1 and 4, does. *)
Theorem X9_keyboard_shortcuts (toLowerCase : js_string -> js_string)
        (e_key : js_string) (st : screen_state) :
  (loading st = true \/ result st <> None ->
   handleKeyDown toLowerCase e_key st = KeyIgnored) /\
  (forall a, handleKeyDown toLowerCase e_key st = KeyAnswer a ->
             In a [js "A"; js "B"; js "C"; js "D"] /\
             loading st = false /\ result st = None) /\
  (loading st = false -> result st = None ->
   forall letter digit answer,
     In (letter, digit, answer)
        [(js "a", js "1", js "A"); (js "b", js "2", js "B");
         (js "c", js "3", js "C"); (js "d", js "4", js "D")] ->
     toLowerCase e_key = letter \/ toLowerCase e_key = digit ->
     handleKeyDown toLowerCase e_key st = KeyAnswer answer) /\
  (length (toLowerCase e_key) <= 1 ->
   forall e, handleKeyDown toLowerCase e_key st <> KeyThrows e) /\
  handleKeyDown toLowerCase_ascii (js "12") fresh_screen = KeyThrows TypeError.
Proof.
  split; [| split; [| split; [| split]]].
  - intros [H | H]; unfold handleKeyDown.
    + now rewrite H.
    + destruct (result st); [| contradiction]. now rewrite orb_true_r.
  - intros a. unfold handleKeyDown.
    destruct (loading st); [discriminate |].
    destruct (result st); [discriminate |]. cbn [orb].
    intros H. split; [| split; reflexivity].
    destruct (indexOf (toLowerCase e_key) choices);
      [now apply choice_upper_answer in H |].
    destruct (string_ge _ _ && string_le _ _); [| discriminate].
    destruct (parseInt (toLowerCase e_key)); [| discriminate].
    now apply choice_upper_answer in H.
  - intros Hl Hr letter digit answer Hin Hkey. unfold handleKeyDown.
    rewrite Hl, Hr. cbn [orb].
    simpl in Hin.
    destruct Hin as [E | [E | [E | [E | []]]]]; injection E as <- <- <-;
      destruct Hkey as [-> | ->]; reflexivity.
  - intros Hlen e. unfold handleKeyDown.
    destruct (loading st || _); [discriminate |].
    destruct (toLowerCase e_key) as [|c [|c' k]]; [discriminate | | simpl in Hlen; lia].
    destruct (indexOf [c] choices) as [i|] eqn:Hi.
    + assert (Hi4 : i < 4).
      { unfold choices in Hi. cbn [indexOf] in Hi.
        repeat (destruct (decide _) in Hi; [injection Hi as <-; lia |]).
        discriminate. }
      destruct (choice_upper_in_range (Z.of_nat i) ltac:(lia)) as (a & ->).
      discriminate.
    + destruct (string_ge [c] (js "1") && string_le [c] (js "4")) eqn:Hrange;
        [| discriminate].
      apply digit_key_range in Hrange.
      rewrite (parseInt_digit_key c Hrange).
      destruct (choice_upper_in_range (Z.of_N c - 48 - 1) ltac:(lia)) as (a & ->).
      discriminate.
  - reflexivity.
Qed.

Lemma X9_keyboard_shortcuts_witness :
  (loading answered_screen = true \/ result answered_screen <> None) /\
  handleKeyDown toLowerCase_ascii (js "A") answered_screen = KeyIgnored /\
  handleKeyDown toLowerCase_ascii (js "C") fresh_screen = KeyAnswer (js "C") /\
  handleKeyDown toLowerCase_ascii (js "3") fresh_screen = KeyAnswer (js "C") /\
  (forall e, handleKeyDown toLowerCase_ascii (js "x") fresh_screen <> KeyThrows e).
Proof.
  assert (H : loading answered_screen = true \/ result answered_screen <> None)
    by (right; discriminate).
  split; [exact H |]. split.
  - exact (proj1 (X9_keyboard_shortcuts toLowerCase_ascii (js "A") answered_screen) H).
  - split; [| split].
    + apply (proj1 (proj2 (proj2 (X9_keyboard_shortcuts toLowerCase_ascii (js "C")
                                                        fresh_screen)))
               eq_refl eq_refl (js "c") (js "3") (js "C")).
      * right. right. left. reflexivity.
      * left. reflexivity.
    + apply (proj1 (proj2 (proj2 (X9_keyboard_shortcuts toLowerCase_ascii (js "3")
                                                        fresh_screen)))
               eq_refl eq_refl (js "c") (js "3") (js "C")).
      * right. right. left. reflexivity.
      * right. reflexivity.
    + apply (proj1 (proj2 (proj2 (proj2
               (X9_keyboard_shortcuts toLowerCase_ascii (js "x") fresh_screen))))).
      simpl. lia.
Defined.

End QuizKeysMore.

(** ** The quiz screen: answers and replies as they interleave *)

Section QuizRunMore.

Import QuizScreen QuizRun.

Lemma run_app (events1 events2 : list event) (r : running) :
  run (events1 ++ events2) r = run events2 (run events1 r).
Proof. unfold run. apply fold_left_app. Qed.

(** While no result is showing, every answer is sent. *)
Lemma answers_sent (answers : list js_string) : forall r : running,
  result (screen r) = None ->
  result (screen (run (map AnswerGiven answers) r)) = None /\
  in_flight (run (map AnswerGiven answers) r) = in_flight r + length answers /\
  log (run (map AnswerGiven answers) r)
  = log r ++ map CheckAnswerRequest answers.
Proof.
  induction answers as [|a answers IH]; intros r Hr.
  - cbn. rewrite app_nil_r. split; [exact Hr | split; [lia | reflexivity]].
  - cbn [map run fold_left].
    assert (Hstep : step r (AnswerGiven a)
                    = Running (ScreenState (questionData (screen r)) (Some a)
                                           (result (screen r)) (loading (screen r)))
                              (S (in_flight r))
                              (log r ++ [CheckAnswerRequest a])).
    { unfold step, handleAnswer. now rewrite Hr. }
    rewrite Hstep.
    destruct (IH (Running (ScreenState (questionData (screen r)) (Some a)
                                       (result (screen r)) (loading (screen r)))
                          (S (in_flight r))
                          (log r ++ [CheckAnswerRequest a])) Hr)
      as (H1 & H2 & H3).
    fold (run (map AnswerGiven answers)
              (Running (ScreenState (questionData (screen r)) (Some a)
                                    (result (screen r)) (loading (screen r)))
                       (S (in_flight r)) (log r ++ [CheckAnswerRequest a]))).
    split; [exact H1 |]. split.
    + rewrite H2. cbn [in_flight length]. lia.
    + rewrite H3. cbn [log]. now rewrite <- app_assoc.
Qed.

(** Every reply to a request in flight schedules an advance. *)
Lemma replies_accepted (replies : list answer_data) : forall r : running,
  length replies <= in_flight r ->
  in_flight (run (map (fun d => AnswerSettles (Returns d)) replies) r)
  = in_flight r - length replies /\
  log (run (map (fun d => AnswerSettles (Returns d)) replies) r)
  = log r ++ map (fun d => ScheduleAdvance (has_more d)) replies.
Proof.
  induction replies as [|d replies IH]; intros r Hr.
  - cbn. rewrite app_nil_r. split; [lia | reflexivity].
  - cbn [length] in Hr. cbn [map run fold_left].
    destruct r as [st n l]. cbn [in_flight] in Hr.
    destruct n as [|n]; [lia |].
    cbn [step in_flight handleAnswer_resume screen log].
    destruct (IH (Running (ScreenState (questionData st) (selectedAnswer st)
                                       (Some d) (loading st))
                          n (l ++ [ScheduleAdvance (has_more d)])))
      as (H1 & H2); [cbn [in_flight]; lia |].
    fold (run (map (fun d => AnswerSettles (Returns d)) replies)
              (Running (ScreenState (questionData st) (selectedAnswer st)
                                    (Some d) (loading st))
                       n (l ++ [ScheduleAdvance (has_more d)]))).
    split.
    + rewrite H1. cbn [in_flight length]. lia.
    + rewrite H2. cbn [log]. now rewrite <- app_assoc.
Qed.

(** What a run keeps when no answer is given while a request is in
    flight: at most one request is in flight, and then no result shows;
    the answers accepted and the question that is open make up no more
    than they did, but for the questions loaded. *)
Lemma step_one_at_a_time (r : running) (ev : event) :
  in_flight r <= 1 ->
  (in_flight r = 1 -> result (screen r) = None) ->
  match ev with AnswerGiven _ => in_flight r =? 0 | _ => true end = true ->
  in_flight (step r ev) <= 1 /\
  (in_flight (step r ev) = 1 -> result (screen (step r ev)) = None) /\
  length (List.filter is_accepted (log (step r ev)))
  + open_question (screen (step r ev))
  <= length (List.filter is_accepted (log r)) + open_question (screen r)
     + (if is_loaded ev then 1 else 0).
Proof.
  intros Hle Hnone Hev. destruct r as [st n l]. cbn [in_flight screen log] in *.
  destruct ev as [answer | reply | | reply].
  - apply Nat.eqb_eq in Hev. subst n.
    unfold step, handleAnswer, open_question. cbn [screen in_flight log].
    destruct (result st) eqn:Hr; cbn [in_flight screen log result];
      rewrite ?Hr, List.filter_app, length_app; cbn; repeat split; auto; lia.
  - destruct n as [|n]; [cbn; repeat split; auto; lia |].
    assert (n = 0) by lia. subst n. specialize (Hnone eq_refl).
    unfold open_question. rewrite Hnone.
    destruct reply as [d | e]; cbn [step in_flight screen log handleAnswer_resume result];
      rewrite List.filter_app, length_app; cbn; rewrite ?Hnone;
      repeat split; intros; try lia; try discriminate; auto.
  - cbn. unfold open_question. cbn. repeat split; auto; lia.
  - unfold open_question.
    destruct reply as [q | e]; cbn; repeat split; intros; auto; try lia;
      destruct (result st); lia.
Qed.

Lemma run_one_at_a_time (events : list event) : forall r : running,
  in_flight r <= 1 ->
  (in_flight r = 1 -> result (screen r) = None) ->
  one_at_a_time events r = true ->
  length (List.filter is_accepted (log (run events r)))
  + open_question (screen (run events r))
  <= length (List.filter is_accepted (log r)) + open_question (screen r)
     + length (List.filter is_loaded events).
Proof.
  induction events as [|ev events IH]; intros r Hle Hnone Hone.
  - cbn. lia.
  - cbn [one_at_a_time] in Hone. apply andb_true_iff in Hone as [Hev Hrest].
    destruct (step_one_at_a_time r ev Hle Hnone Hev) as (Hle' & Hnone' & Hstep).
    specialize (IH (step r ev) Hle' Hnone' Hrest).
    cbn [run fold_left]. fold (run events (step r ev)).
    cbn [List.filter]. destruct (is_loaded ev); cbn [length]; lia.
Qed.

(** X11.  One answer per question, when answers do not overlap.  As long
    as no answer is given while the request of an earlier answer is still
    in flight, then whatever the server replies and whenever questions are
    loaded, the number of answers that the screen got accepted never
    exceeds the number of questions that were loaded, plus one when the
    screen started on a question without result. *)
Theorem X11_one_answer_when_not_overlapping
        (events : list event) (st : screen_state)
        (Hone : one_at_a_time events (start st) = true) :
  length (List.filter is_accepted (log (run events (start st))))
  + open_question (screen (run events (start st)))
  <= length (List.filter is_loaded events) + open_question st.
Proof.
  pose proof (run_one_at_a_time events (start st)) as H.
  cbn [start in_flight screen log List.filter length] in H.
  specialize (H ltac:(lia) ltac:(discriminate) Hone). lia.
Qed.

Lemma X11_one_answer_when_not_overlapping_witness :
  one_at_a_time two_questions (start fresh_screen) = true /\
  length (List.filter is_accepted (log (run two_questions (start fresh_screen))))
  + open_question (screen (run two_questions (start fresh_screen)))
  <= length (List.filter is_loaded two_questions) + open_question fresh_screen.
Proof.
  split; [reflexivity |].
  exact (X11_one_answer_when_not_overlapping two_questions fresh_screen eq_refl).
Defined.

(** X19.  The guard of [handleAnswer] does not hold back an answer that
    is given while an earlier one is still in flight: on a question
    without result, all the answers given before the first reply are
    sent, and every reply then schedules an advance of its own. *)
Theorem X19_answers_in_flight_all_sent
        (answers : list js_string) (replies : list answer_data)
        (st : screen_state)
        (Hopen : result st = None)
        (Hreplies : length replies = length answers) :
  log (run (map AnswerGiven answers
            ++ map (fun d => AnswerSettles (Returns d)) replies) (start st))
  = map CheckAnswerRequest answers
    ++ map (fun d => ScheduleAdvance (has_more d)) replies.
Proof.
  rewrite run_app.
  destruct (answers_sent answers (start st) Hopen) as (_ & Hn & Hlog).
  destruct (replies_accepted replies (run (map AnswerGiven answers) (start st)))
    as (_ & Hlog'); [rewrite Hn; cbn [start in_flight]; lia |].
  rewrite Hlog', Hlog. reflexivity.
Qed.

Lemma X19_answers_in_flight_all_sent_witness :
  log (run (map AnswerGiven [js "B"; js "C"]
            ++ map (fun d => AnswerSettles (Returns d)) [wrong_reply; wrong_reply])
           (start fresh_screen))
  = map CheckAnswerRequest [js "B"; js "C"]
    ++ map (fun d => ScheduleAdvance (has_more d)) [wrong_reply; wrong_reply].
Proof.
  exact (X19_answers_in_flight_all_sent [js "B"; js "C"] [wrong_reply; wrong_reply]
           fresh_screen eq_refl eq_refl).
Defined.

End QuizRunMore.

(** ** The legacy page: keyboard and pasted text *)

Section LegacyPageMore.

Import JsString JsGlobal LegacyPage.

Lemma select_fields (letter : option js_string) (p : page) :
  keyboardShortcutsEnabled (select letter p) = keyboardShortcutsEnabled p /\
  quizScreen_hidden (select letter p) = quizScreen_hidden p /\
  choice_letters (select letter p) = choice_letters p /\
  feedback_text (select letter p) = feedback_text p /\
  (checked (select letter p) = checked p \/
   exists a, checked (select letter p) = Some a /\ In a (choice_letters p)).
Proof.
  unfold select. case_bool_decide as Hin; cbn; repeat split; auto.
  right. eexists. split; [reflexivity |]. now apply list_elem_of_In.
Qed.

Lemma same_question_refl (p : page) : same_question p p.
Proof. repeat split; auto. Qed.

Lemma same_question_trans (p q r : page) :
  same_question p q -> same_question q r -> same_question p r.
Proof.
  intros (Hh & Hc & Hk) (Hh' & Hc' & Hk'). repeat split; try congruence.
  destruct Hk' as [Hk' | (a & Ha & Hin)].
  - rewrite Hk'. exact Hk.
  - right. exists a. split; [exact Ha | congruence].
Qed.

Lemma same_question_select (letter : option js_string) (p : page) :
  same_question p (select letter p).
Proof.
  destruct (select_fields letter p) as (_ & Hh & Hc & _ & Hk).
  repeat split; assumption.
Qed.

(** One keydown: either no request is sent and the shortcuts stay as they
    were, or the value of the checked radio is sent and the shortcuts are
    disabled. *)
Lemma keydown_step (toLowerCase : js_string -> js_string)
      (target e_key : js_string) (p : page) :
  let r := keydown toLowerCase target e_key p in
  same_question p (fst r) /\
  ((List.filter is_post (snd r) = [] /\
    keyboardShortcutsEnabled (fst r) = keyboardShortcutsEnabled p) \/
   (exists a, List.filter is_post (snd r) = [PostAnswer a] /\
              checked (fst r) = Some a /\
              keyboardShortcutsEnabled (fst r) = false)).
Proof.
  cbv zeta. unfold keydown.
  destruct (bool_decide (target = js "TEXTAREA") || bool_decide (target = js "INPUT")).
  { cbn. split; [apply same_question_refl | left; auto]. }
  destruct (quizScreen_hidden p || negb (keyboardShortcutsEnabled p)).
  { cbn. split; [apply same_question_refl | left; auto]. }
  set (key := toLowerCase e_key).
  set (d := string_ge key (js "1") && string_le key (js "4")).
  set (l := bool_decide (key = js "a") || bool_decide (key = js "b")
            || bool_decide (key = js "c") || bool_decide (key = js "d")).
  set (p1 := if d then select (letter_at (option_map (fun n => (n - 1)%Z) (parseInt key))) p else p).
  set (e1 := if d then [PreventDefault] else []).
  assert (H1 : (if d
                then (select (letter_at (option_map (fun n => (n - 1)%Z) (parseInt key))) p,
                      [PreventDefault])
                else (p, [])) = (p1, e1)) by (subst p1 e1; now destruct d).
  rewrite H1.
  set (p2 := if l then select (Some (toUpperCase_ascii key)) p1 else p1).
  set (e2 := if l then e1 ++ [PreventDefault] else e1).
  assert (H2 : (if l then (select (Some (toUpperCase_ascii key)) p1, e1 ++ [PreventDefault])
                else (p1, e1)) = (p2, e2)) by (subst p2 e2; now destruct l).
  rewrite H2.
  assert (Hp1 : same_question p p1 /\
                keyboardShortcutsEnabled p1 = keyboardShortcutsEnabled p).
  { subst p1. destruct d; [| split; [apply same_question_refl | reflexivity]].
    split; [apply same_question_select | apply select_fields]. }
  assert (Hp2 : same_question p p2 /\
                keyboardShortcutsEnabled p2 = keyboardShortcutsEnabled p).
  { subst p2. destruct l; [| exact Hp1]. destruct Hp1 as [Hs He]. split.
    - eapply same_question_trans; [exact Hs | apply same_question_select].
    - rewrite <- He. apply select_fields. }
  assert (He2 : List.filter is_post e2 = []).
  { subst e2 e1. now destruct l, d. }
  destruct Hp2 as [Hs2 Hen2].
  destruct (bool_decide (key = js "enter") || bool_decide (key = js " ")).
  - unfold checkAnswer. destruct (checked p2) as [a|] eqn:Hck; cbn [fst snd].
    + split.
      * destruct Hs2 as (Hh & Hc & Hk). repeat split; cbn; try assumption.
        now rewrite Hck in Hk.
      * right. exists a. rewrite !List.filter_app, He2. cbn. auto.
    + split.
      * destruct Hs2 as (Hh & Hc & Hk). repeat split; cbn; try assumption.
        now rewrite Hck in Hk.
      * left. rewrite !List.filter_app, He2. cbn. auto.
  - cbn [fst snd]. split; [exact Hs2 | left; auto].
Qed.

Lemma keydown_disabled (toLowerCase : js_string -> js_string)
      (target e_key : js_string) (p : page) :
  keyboardShortcutsEnabled p = false ->
  keydown toLowerCase target e_key p = (p, []).
Proof.
  intros H. unfold keydown. rewrite H, orb_true_r.
  now destruct (_ || _).
Qed.

Lemma keydowns_from (toLowerCase : js_string -> js_string)
      (events : list (js_string * js_string)) : forall (p : page) (sent : list effect),
  fold_left (fun acc ev =>
               let '(p', effects) := keydown toLowerCase (fst ev) (snd ev) (fst acc) in
               (p', snd acc ++ effects))
            events (p, sent)
  = (fst (keydowns toLowerCase events p), sent ++ snd (keydowns toLowerCase events p)).
Proof.
  unfold keydowns.
  induction events as [|ev events IH]; intros p sent; cbn [fold_left fst snd].
  - now rewrite app_nil_r.
  - destruct (keydown toLowerCase (fst ev) (snd ev) p) as [p1 e1].
    rewrite (IH p1 (sent ++ e1)), (IH p1 ([] ++ e1)). cbn [fst snd].
    now rewrite app_assoc.
Qed.

Lemma keydowns_cons (toLowerCase : js_string -> js_string)
      (ev : js_string * js_string) (events : list (js_string * js_string)) (p : page) :
  keydowns toLowerCase (ev :: events) p
  = (fst (keydowns toLowerCase events (fst (keydown toLowerCase (fst ev) (snd ev) p))),
     snd (keydown toLowerCase (fst ev) (snd ev) p)
     ++ snd (keydowns toLowerCase events (fst (keydown toLowerCase (fst ev) (snd ev) p)))).
Proof.
  unfold keydowns at 1. cbn [fold_left fst snd].
  destruct (keydown toLowerCase (fst ev) (snd ev) p) as [p1 e1].
  now rewrite keydowns_from.
Qed.

Lemma keydowns_disabled (toLowerCase : js_string -> js_string)
      (events : list (js_string * js_string)) (p : page) :
  keyboardShortcutsEnabled p = false ->
  keydowns toLowerCase events p = (p, []).
Proof.
  intros H. induction events as [|ev events IH]; [reflexivity |].
  rewrite keydowns_cons, keydown_disabled by exact H. cbn [fst snd].
  now rewrite IH.
Qed.

(** X10.  However many keys are pressed on the legacy page, the keyboard
    sends at most one answer for the question on display: the first request
    disables the shortcuts, and until [displayQuestion] enables them again
    every key is ignored.  What is sent is the value of the radio that was
    checked at the start or of one of the choices on display. *)
Theorem X10_legacy_keys_send_once (toLowerCase : js_string -> js_string)
        (events : list (js_string * js_string)) (p : page) :
  let r := keydowns toLowerCase events p in
  same_question p (fst r) /\
  ((List.filter is_post (snd r) = [] /\
    keyboardShortcutsEnabled (fst r) = keyboardShortcutsEnabled p) \/
   (exists a, List.filter is_post (snd r) = [PostAnswer a] /\
              keyboardShortcutsEnabled (fst r) = false /\
              (checked p = Some a \/ In a (choice_letters p)))).
Proof.
  cbv zeta. revert p. induction events as [|ev events IH]; intros p.
  - cbn. split; [apply same_question_refl | left; auto].
  - rewrite keydowns_cons. cbn [fst snd].
    pose proof (keydown_step toLowerCase (fst ev) (snd ev) p) as Hstep.
    cbv zeta in Hstep.
    destruct (keydown toLowerCase (fst ev) (snd ev) p) as [p1 e1].
    cbn [fst snd] in *. destruct Hstep as [Hs1 Hsent1].
    destruct Hsent1 as [[Hnone Hen] | (a & Hone & Hck & Hdis)].
    + destruct (IH p1) as [Hs Hsent]. split.
      * eapply same_question_trans; eauto.
      * rewrite List.filter_app, Hnone. cbn [app].
        destruct Hsent as [[Hn He] | (a & Ha & Hd & Hfrom)].
        -- left. split; [exact Hn | congruence].
        -- right. exists a. repeat split; try assumption.
           destruct Hs1 as (_ & Hc & Hk).
           destruct Hfrom as [Hfrom | Hfrom].
           ++ destruct Hk as [Hk | (b & Hb & Hin)].
              ** left. congruence.
              ** right. assert (a = b) by congruence. now subst.
           ++ right. congruence.
    + rewrite (keydowns_disabled toLowerCase events p1 Hdis). cbn [fst snd].
      split; [exact Hs1 |].
      right. exists a. rewrite app_nil_r. repeat split; try assumption.
      destruct Hs1 as (_ & Hc & Hk).
      destruct Hk as [Hk | (b & Hb & Hin)].
      * left. congruence.
      * right. assert (a = b) by congruence. now subst.
Qed.

(** With the quiz on display, the shortcuts enabled and the focus outside
    a text field, the listener reaches its three tests of the key. *)
Lemma keydown_open (toLowerCase : js_string -> js_string)
      (target e_key : js_string) (p : page) :
  target <> js "TEXTAREA" /\ target <> js "INPUT" ->
  quizScreen_hidden p = false ->
  keyboardShortcutsEnabled p = true ->
  keydown toLowerCase target e_key p =
    let key := toLowerCase e_key in
    let '(p, effects) :=
      if string_ge key (js "1") && string_le key (js "4")
      then (select (letter_at (option_map (fun n => n - 1)%Z (parseInt key))) p,
            [PreventDefault])
      else (p, []) in
    let '(p, effects) :=
      if bool_decide (key = js "a") || bool_decide (key = js "b")
         || bool_decide (key = js "c") || bool_decide (key = js "d")
      then (select (Some (toUpperCase_ascii key)) p, effects ++ [PreventDefault])
      else (p, effects) in
    if bool_decide (key = js "enter") || bool_decide (key = js " ")
    then let '(p, sent) := checkAnswer p in
         (p, effects ++ [PreventDefault] ++ sent)
    else (p, effects).
Proof.
  intros [H1 H2] Hh He. unfold keydown.
  rewrite (bool_decide_eq_false_2 _ H1), (bool_decide_eq_false_2 _ H2), Hh, He.
  reflexivity.
Qed.

(** The keys that select a choice, and what each test of the listener
    makes of them. *)
Lemma selecting_key (key letter : js_string) :
  In (key, letter)
     [(js "1", js "A"); (js "2", js "B"); (js "3", js "C"); (js "4", js "D");
      (js "a", js "A"); (js "b", js "B"); (js "c", js "C"); (js "d", js "D")] ->
  ((string_ge key (js "1") && string_le key (js "4") = true /\
    letter_at (option_map (fun n => n - 1)%Z (parseInt key)) = Some letter /\
    bool_decide (key = js "a") || bool_decide (key = js "b")
    || bool_decide (key = js "c") || bool_decide (key = js "d") = false)
   \/
   (string_ge key (js "1") && string_le key (js "4") = false /\
    toUpperCase_ascii key = letter /\
    bool_decide (key = js "a") || bool_decide (key = js "b")
    || bool_decide (key = js "c") || bool_decide (key = js "d") = true))
  /\ bool_decide (key = js "enter") || bool_decide (key = js " ") = false.
Proof.
  cbn [In].
  intros [Hk|[Hk|[Hk|[Hk|[Hk|[Hk|[Hk|[Hk|[]]]]]]]]];
    injection Hk as <- <-; (split; [| reflexivity]);
    first [ left; repeat split; reflexivity | right; repeat split; reflexivity ].
Qed.

Lemma select_displayed (letter : js_string) (p : page) :
  In letter (choice_letters p) ->
  select (Some letter) p
  = Page (keyboardShortcutsEnabled p) (quizScreen_hidden p) (choice_letters p)
         (Some letter) (feedback_text p).
Proof.
  intros Hin. unfold select. cbn [letter_text].
  rewrite bool_decide_eq_true_2; [reflexivity | now apply list_elem_of_In].
Qed.

(** X12.  After [displayQuestion] the keys work again: a digit from 1 to 4
    or a letter from a to d that names a choice on display, followed by
    Enter or the space bar, sends exactly that choice. *)
Theorem X12_legacy_select_then_enter (toLowerCase : js_string -> js_string)
        (data_letters : list js_string) (p : page)
        (target1 target2 key enter letter : js_string)
        (Htarget1 : target1 <> js "TEXTAREA" /\ target1 <> js "INPUT")
        (Htarget2 : target2 <> js "TEXTAREA" /\ target2 <> js "INPUT")
        (Hkey : In (toLowerCase key, letter)
                   [(js "1", js "A"); (js "2", js "B"); (js "3", js "C"); (js "4", js "D");
                    (js "a", js "A"); (js "b", js "B"); (js "c", js "C"); (js "d", js "D")])
        (Henter : toLowerCase enter = js "enter" \/ toLowerCase enter = js " ")
        (Hletter : In letter data_letters) :
  List.filter is_post
    (snd (keydowns toLowerCase [(target1, key); (target2, enter)]
                   (displayQuestion data_letters p)))
  = [PostAnswer letter].
Proof.
  rewrite !keydowns_cons. cbn [fst snd keydowns fold_left].
  rewrite app_nil_r.
  assert (Hfirst : keydown toLowerCase target1 key (displayQuestion data_letters p)
                   = (Page true false data_letters (Some letter) NoFeedback,
                      [PreventDefault])).
  { rewrite keydown_open by (assumption || reflexivity). cbv zeta.
    destruct (selecting_key _ _ Hkey) as [[(Hd & Hl & Ha) | (Hd & Hu & Ha)] He];
      rewrite Hd, Ha, He; cbv beta iota.
    - rewrite Hl, select_displayed by exact Hletter. reflexivity.
    - rewrite Hu, select_displayed by exact Hletter. reflexivity. }
  rewrite Hfirst. cbn [fst snd].
  rewrite keydown_open by (assumption || reflexivity). cbv zeta.
  destruct Henter as [-> | ->]; reflexivity.
Qed.

Lemma X12_legacy_select_then_enter_witness :
  List.filter is_post
    (snd (keydowns toLowerCase_ascii [(js "BODY", js "2"); (js "BODY", js "Enter")]
                   (displayQuestion [js "A"; js "B"; js "C"]
                                    (Page false true [] None NoFeedback))))
  = [PostAnswer (js "B")].
Proof.
  apply (X12_legacy_select_then_enter toLowerCase_ascii [js "A"; js "B"; js "C"]
           (Page false true [] None NoFeedback)
           (js "BODY") (js "BODY") (js "2") (js "Enter") (js "B")).
  - split; discriminate.
  - split; discriminate.
  - right. left. reflexivity.
  - left. reflexivity.
  - right. left. reflexivity.
Defined.

(** A trimmed text is its own [trim]. *)
Lemma trim_of_trimmed (s : js_string) : trimmed s -> trim s = s.
Proof.
  intros [Hhead Hlast]. unfold trim.
  assert (Hs : trimStart s = s).
  { destruct s as [|c t]; [reflexivity |]. simpl.
    now rewrite (Hhead c t eq_refl). }
  rewrite Hs. unfold trimEnd.
  destruct (rev s) as [|c l] eqn:Hrev; [| simpl].
  - apply (f_equal (@rev code_unit)) in Hrev. now rewrite rev_involutive in Hrev.
  - apply (f_equal (@rev code_unit)) in Hrev. rewrite rev_involutive in Hrev.
    simpl in Hrev. rewrite (Hlast (rev l) c Hrev). simpl. now rewrite Hrev.
Qed.

(** X13.  Pasted text.  The legacy page and the React start screen send a
    request for the same inputs, those that are not blank; the legacy page
    sends the trimmed text, the React screen the text as typed, and the two
    agree once trimmed.  For a blank input the legacy page alerts and the
    React screen does nothing. *)
Theorem X13_pasted_text (value : js_string) :
  (trim value = [] /\
   submitPastedText value = [Alert (js "Please paste some text first!")] /\
   handlePasteSubmit value = [])
  \/
  (trim value <> [] /\
   submitPastedText value = [PostPaste (trim value)] /\
   handlePasteSubmit value = [PostPaste value] /\
   trimmed (trim value) /\
   submitPastedText (trim value) = submitPastedText value).
Proof.
  unfold submitPastedText, handlePasteSubmit.
  pose proof (trim_trimmed value) as Ht.
  rewrite (trim_of_trimmed _ Ht).
  destruct (trim value) as [|c t] eqn:Hv.
  - left. auto.
  - right. repeat split; auto; try discriminate; apply Ht.
Qed.

End LegacyPageMore.

(** ** services/api.js *)

Section ApiMore.

Import Api.

(** X14.  The request of [fetchWithCredentials]: the credentials are
    always included, whatever the caller's options say; a header of the
    caller is sent as given, and the JSON content type is sent unless the
    caller gives a content type of its own; every other option is passed
    on unchanged. *)
Theorem X14_fetch_request (options : request_init) :
  fetch_init options !! "credentials"%string = Some (IText (js "include")) /\
  (exists headers,
      fetch_init options !! "headers"%string = Some (IObject headers) /\
      (forall name value,
          spread (options !! "headers"%string) !! name = Some value ->
          headers !! name = Some value) /\
      (spread (options !! "headers"%string) !! "Content-Type"%string = None ->
       headers !! "Content-Type"%string = Some (js "application/json")) /\
      (forall name,
          headers !! name = None \/
          headers !! name = spread (options !! "headers"%string) !! name \/
          (name = "Content-Type"%string /\
           headers !! name = Some (js "application/json")))) /\
  (forall field, field <> "credentials"%string -> field <> "headers"%string ->
                 fetch_init options !! field = options !! field).
Proof.
  unfold fetch_init. split; [| split].
  - rewrite lookup_insert_ne by discriminate. now rewrite lookup_insert_eq.
  - eexists. split; [now rewrite lookup_insert_eq |]. split; [| split].
    + intros name value H. now apply lookup_union_Some_l.
    + intros H. rewrite lookup_union_r by exact H. reflexivity.
    + intros name.
      destruct (spread (options !! "headers"%string) !! name) as [v|] eqn:Hn.
      * right. left. now apply lookup_union_Some_l.
      * rewrite lookup_union_r by exact Hn. unfold defaultHeaders.
        destruct (decide (name = "Content-Type"%string)) as [-> | Hne].
        -- right. right. split; [reflexivity | apply lookup_singleton_eq].
        -- left. now apply lookup_singleton_ne.
  - intros field H1 H2. now rewrite !lookup_insert_ne by congruence.
Qed.

(** X15.  A response that is not ok never resolves the promise of
    [fetchWithCredentials]: when its body is an object, the promise is
    rejected with an error whose message is the body's [error], or
    'Request failed' when that is missing or falsy; a response that is ok
    resolves with its body. *)
Theorem X15_fetch_outcome
        (fetch : js_string -> request_init -> completion response)
        (url : js_string) (options : request_init)
        (r : response) (fields : gmap string json)
        (Hfetch : fetch url (fetch_init options) = Returns r)
        (Hbody : json_body r = Returns (JObject fields)) :
  (ok r = true ->
   fetchWithCredentials fetch url options = Resolves (JObject fields)) /\
  (ok r = false ->
   exists message,
     fetchWithCredentials fetch url options = RejectsNewError message /\
     truthy message = true /\
     (fields !! "error"%string = Some message \/
      (message = JValue (VString (js "Request failed")) /\
       forall e, fields !! "error"%string = Some e -> truthy e = false))).
Proof.
  unfold fetchWithCredentials. rewrite Hfetch, Hbody. split; intros Hok; rewrite Hok.
  - reflexivity.
  - cbn [negb get_error].
    destruct (fields !! "error"%string) as [e|] eqn:He.
    + destruct (truthy e) eqn:Ht.
      * exists e. auto.
      * eexists. split; [reflexivity |]. split; [reflexivity |].
        right. split; [reflexivity |]. intros e' [= <-]. exact Ht.
    + eexists. split; [reflexivity |]. split; [reflexivity |].
      right. split; [reflexivity |]. intros e' [=].
Qed.

Lemma X15_fetch_outcome_witness :
  exists message,
    fetchWithCredentials refusing_fetch (js "/api/question") ∅
    = RejectsNewError message /\
    truthy message = true /\
    (refused_fields !! "error"%string = Some message \/
     (message = JValue (VString (js "Request failed")) /\
      forall e, refused_fields !! "error"%string = Some e -> truthy e = false)).
Proof.
  exact (proj2 (X15_fetch_outcome refusing_fetch (js "/api/question") ∅
                  refused refused_fields eq_refl eq_refl) eq_refl).
Defined.

End ApiMore.

(** ** App.jsx *)

Section AppMore.

Import App.

(** What every reachable state of [App] satisfies. *)
Lemma step_invariant (ev : event) (s : app) :
  (authChecked s = false -> s = initial) ->
  (members_only (screen s) = true -> signed_in s = true) ->
  (authChecked (step ev s) = false -> step ev s = initial) /\
  (members_only (screen (step ev s)) = true -> signed_in (step ev s) = true).
Proof.
  intros Hload Hmem.
  destruct s as [n h u [|]].
  - clear Hload. cbn in Hmem.
    destruct ev; cbn; try (destruct u; cbn); split; intros; try discriminate;
      try (exact (Hmem ltac:(assumption))); auto.
    all: try destruct userData; try discriminate; auto.
  - specialize (Hload eq_refl). injection Hload as -> -> ->.
    destruct ev; cbn; try (destruct authenticated); cbn; split; intros;
      try discriminate; auto.
Qed.

Lemma run_invariant (events : list event) : forall s : app,
  (authChecked s = false -> s = initial) ->
  (members_only (screen s) = true -> signed_in s = true) ->
  (authChecked (run events s) = false -> run events s = initial) /\
  (members_only (screen (run events s)) = true -> signed_in (run events s) = true).
Proof.
  induction events as [|ev events IH]; intros s H1 H2; [auto |].
  cbn [run fold_left]. apply IH; apply step_invariant; assumption.
Qed.

(** X16.  Whatever happens to [App], the history and the settings are on
    screen only for a signed-in user, and only after the check of the
    mount has settled. *)
Theorem X16_members_only_screens (events : list event)
        (Hscreen : members_only (screen (run events initial)) = true) :
  signed_in (run events initial) = true /\
  authChecked (run events initial) = true.
Proof.
  destruct (run_invariant events initial) as [Hload Hmem]; [auto | discriminate |].
  split; [exact (Hmem Hscreen) |].
  destruct (authChecked (run events initial)) eqn:Ha; [reflexivity |].
  rewrite (Hload eq_refl) in Hscreen. discriminate.
Qed.

Lemma X16_members_only_screens_witness :
  members_only
    (screen (run [checkAuth_resolved true (Some (js "a@b.c")); click_history] initial)) = true /\
  signed_in (run [checkAuth_resolved true (Some (js "a@b.c")); click_history] initial) = true /\
  authChecked (run [checkAuth_resolved true (Some (js "a@b.c")); click_history] initial) = true.
Proof.
  split; [reflexivity |].
  exact (X16_members_only_screens
           [checkAuth_resolved true (Some (js "a@b.c")); click_history] eq_refl).
Defined.

End AppMore.

(** ** The requests of the clients *)

Section RequestsMore.

Import Api Requests.

(** X17.  The requests that AuthScreen.jsx and the legacy page write out
    by hand are those of [fetchWithCredentials]: signing in and signing up
    go to the same address with the same options as [api.login] and
    [api.signup]; pasted text and answers of the legacy page carry the
    same options as [api.pasteText] and [api.checkAnswer], to the same
    path of the server.  For the question the two differ: the React
    client sends the JSON content type, the legacy page no header. *)
Theorem X17_requests_agree (body : js_string) (isLogin : bool) :
  AuthScreen_handleSubmit isLogin body
  = (if isLogin then api_login body else api_signup body) /\
  snd (legacy_submitPastedText body) = snd (api_pasteText body) /\
  snd (legacy_checkAnswer body) = snd (api_checkAnswer body) /\
  js "http://localhost:5001" ++ fst (legacy_submitPastedText body)
  = fst (api_pasteText body) /\
  js "http://localhost:5001" ++ fst (legacy_checkAnswer body)
  = fst (api_checkAnswer body) /\
  snd api_getQuestion
  = <[ "headers"%string :=
         IObject {[ "Content-Type"%string := js "application/json" ]} ]>
      (snd legacy_loadQuestion).
Proof.
  assert (Hinit : written_out body = fetch_init (post body)).
  { unfold written_out, fetch_init, post.
    rewrite lookup_insert_ne by discriminate.
    rewrite lookup_singleton_ne by discriminate.
    cbn [spread]. rewrite (left_id ∅ (∪)).
    rewrite (insert_insert_ne _ "credentials"%string "method"%string) by discriminate.
    rewrite (insert_insert_ne _ "headers"%string "method"%string) by discriminate.
    reflexivity. }
  split; [| split; [| split; [| split; [| split]]]].
  - unfold AuthScreen_handleSubmit, api_login, api_signup.
    rewrite Hinit. now destruct isLogin.
  - exact Hinit.
  - exact Hinit.
  - reflexivity.
  - reflexivity.
  - cbn [snd api_getQuestion legacy_loadQuestion]. unfold fetch_init.
    rewrite lookup_empty. cbn [spread]. rewrite (left_id ∅ (∪)).
    rewrite insert_empty. reflexivity.
Qed.

End RequestsMore.

(** ** SettingsScreen.jsx *)

Section SettingsMore.

Import JsString Settings.

(** The prefixes that [detectProvider] tests exclude each other, but for
    sk-ant- which extends sk-. *)
Lemma provider_prefixes (key : js_string) :
  (starts_with (js "sk-ant-") key = true -> starts_with (js "sk-") key = true) /\
  (starts_with (js "sk-") key = true -> starts_with (js "AIza") key = false) /\
  (starts_with (js "sk-") key = true -> starts_with (js "ollama") key = false) /\
  (starts_with (js "AIza") key = true -> starts_with (js "ollama") key = false).
Proof.
  split; [| split; [| split]].
  - rewrite !starts_with_iff. intros (rest & ->).
    exists (js "ant-" ++ rest). reflexivity.
  - destruct key as [|c rest]; [discriminate |].
    change (js "sk-") with (115%N :: js "k-").
    change (js "AIza") with (65%N :: js "Iza"). cbn [starts_with].
    destruct (N.eqb_spec 115 c) as [<- |]; [reflexivity | discriminate].
  - destruct key as [|c rest]; [discriminate |].
    change (js "sk-") with (115%N :: js "k-").
    change (js "ollama") with (111%N :: js "llama"). cbn [starts_with].
    destruct (N.eqb_spec 115 c) as [<- |]; [reflexivity | discriminate].
  - destruct key as [|c rest]; [discriminate |].
    change (js "AIza") with (65%N :: js "Iza").
    change (js "ollama") with (111%N :: js "llama"). cbn [starts_with].
    destruct (N.eqb_spec 65 c) as [<- |]; [reflexivity | discriminate].
Qed.

(** X18.  [detectProvider] decides by the prefix of the key alone: each
    answer belongs to one prefix, a key that starts with sk-ant- is never
    taken for an OpenAI key although it starts with sk-, and the test
    [key === 'ollama'] adds nothing to the test of the prefix. *)
Theorem X18_provider_by_prefix (key : js_string) :
  (detectProvider key = js "Claude (Anthropic)"
   <-> starts_with (js "sk-ant-") key = true) /\
  (detectProvider key = js "Gemini (Google)"
   <-> starts_with (js "AIza") key = true) /\
  (detectProvider key = js "Ollama (Local)"
   <-> starts_with (js "ollama") key = true) /\
  (detectProvider key = js "OpenAI (GPT)"
   <-> starts_with (js "sk-") key = true /\
       starts_with (js "sk-ant-") key = false) /\
  (detectProvider key = js "Unknown"
   <-> starts_with (js "sk-") key = false /\
       starts_with (js "AIza") key = false /\
       starts_with (js "ollama") key = false) /\
  (bool_decide (key = js "ollama") || starts_with (js "ollama") key
   = starts_with (js "ollama") key).
Proof.
  destruct (provider_prefixes key) as (Hant & Hsk_ai & Hsk_ol & Hai_ol).
  assert (Hollama : bool_decide (key = js "ollama") || starts_with (js "ollama") key
                    = starts_with (js "ollama") key).
  { case_bool_decide as Hk; [| reflexivity]. subst key. reflexivity. }
  unfold detectProvider. rewrite Hollama.
  destruct (starts_with (js "sk-ant-") key) eqn:Ea;
    destruct (starts_with (js "AIza") key) eqn:Eb;
    destruct (starts_with (js "ollama") key) eqn:Ec;
    destruct (starts_with (js "sk-") key) eqn:Ed;
    try (specialize (Hant eq_refl)); try (specialize (Hsk_ai eq_refl));
    try (specialize (Hsk_ol eq_refl)); try (specialize (Hai_ol eq_refl));
    try discriminate;
    repeat split; intros; try reflexivity; try discriminate;
    repeat match goal with
           | H : _ /\ _ |- _ => destruct H
           end; try discriminate.
Qed.

End SettingsMore.
